(** * vcpkg [toolsrc/src/vcpkg/base/system.cpp]: process execution and
      Ctrl-C coordination

    A shallow embedding of the [_WIN32] configuration of [system.cpp]
    (the only configuration in which the interrupt coordinator, the
    environment builder and the environment-diff extraction exist), plus
    the [popen] branch of [cmd_execute_and_stream_data] where the two
    branches are compared.

    Conventions.
    - [int] is a 32-bit two's-complement integer, kept as a [Z] with the
      wrap-around written out ([wrap_int]).
    - [std::atomic<int>] operations are sequentially consistent; one
      atomic operation is one step of the thread that performs it.
    - [std::string] holding child output is a [list ascii]; environment
      variable names and values are [string]s, and the conversions
      [Strings::to_utf16] / [Strings::to_utf8] are the identity on them.
    - [Strings::append], [Strings::concat] and [Strings::format] are
      concatenation.
    - Calls that leave the process ([Checks::check_exit],
      [Checks::final_cleanup_and_exit], [value_or_exit]) and the
      [while (true)] sleep loops are explicit results.
    - A loop whose model needs fuel returns [None] when the fuel runs
      out; the properties below show that the fuel given suffices. *)

From Stdlib Require Import ZArith Lia List Ascii String Bool.
From stdpp Require Import base list gmap strings.

Local Open Scope Z_scope.

(* ===================================================================== *)
(** * Part I: definitions                                                 *)
(* ===================================================================== *)

(** ** Machine integers and atomics *)

Definition INT_MIN : Z := - 2 ^ 31.
Definition INT_MAX : Z := 2 ^ 31 - 1.

(** Reduction of a mathematical integer to the [int] it is stored as. *)
Definition wrap_int (z : Z) : Z := (z + 2 ^ 31) mod 2 ^ 32 - 2 ^ 31.

(** [m.compare_exchange_strong(expected, desired)] on a cell holding [m]:
    the success flag, the new cell content and the new [expected]. *)
Definition compare_exchange_strong (m expected desired : Z) : bool * Z * Z :=
  if m =? expected then (true, desired, expected) else (false, m, m).

(** [m.fetch_add(d)]: the previous value and the new cell content. *)
Definition fetch_add (m d : Z) : Z * Z := (m, wrap_int (m + d)).

(** ** [CtrlCStateMachine] *)

Module CtrlC.

(** Where a thread stands with respect to the coordinator.  A worker runs
    the body of [cmd_execute] / [cmd_execute_and_stream_data]:
    [transition_to_spawn_process(); create; wait;
    transition_from_spawn_process()].  A handler thread runs
    [transition_handle_ctrl_c()]. *)
Inductive pc : Type :=
| Idle                   (* outside every coordinator call *)
| Spawn_cas (cur : Z)    (* in transition_to_spawn_process, before a CAS with local [cur] *)
| Entered                (* transition_to_spawn_process returned, child not created yet *)
| Blocked                (* child created, not yet waited on *)
| Waited                 (* wait_and_close_handles returned, before fetch_add(-1) *)
| CtrlC_cas (old : Z)    (* in transition_handle_ctrl_c, before a CAS with local [old_value] *)
| Sleeping               (* in a [while (true)] sleep loop *)
| Exiting.               (* in Checks::final_cleanup_and_exit(1) *)

(** What an idle thread does next. *)
Inductive call : Type := CallSpawn | CallCtrlC.

(** One step of one thread on the shared counter [m]. *)
Definition thread_step (c : call) (m : Z) (p : pc) : Z * pc :=
  match p with
  | Idle =>
      match c with
      | CallSpawn => (m, Spawn_cas 0)      (* int cur = 0; *)
      | CallCtrlC => (m, CtrlC_cas 0)      (* int old_value = 0; *)
      end
  | Spawn_cas cur =>
      match compare_exchange_strong m cur (wrap_int (cur + 1)) with
      | (true, m', _) => (m', Entered)
      | (false, m', cur') =>
          if cur' <? 0 then (m', Sleeping) else (m', Spawn_cas cur')
      end
  | Entered => (m, Blocked)
  | Blocked => (m, Waited)
  | Waited =>
      let '(previous, m') := fetch_add m (-1) in
      if previous =? INT_MIN + 1 then (m', Exiting)
      else if previous <? 0 then (m', Sleeping)
      else (m', Idle)
  | CtrlC_cas old =>
      match compare_exchange_strong m old (wrap_int (old + INT_MIN)) with
      | (true, m', old') =>
          if old' =? 0 then (m', Exiting) else (m', Idle)
      | (false, m', old') =>
          if old' <? 0 then (m', Idle) else (m', CtrlC_cas old')
      end
  | Sleeping => (m, Sleeping)
  | Exiting => (m, Exiting)
  end.

(** The process: [m_number_of_external_processes] and its threads. *)
Record system : Type := System { counter : Z; threads : list pc }.

(** A schedule names, step by step, the thread that moves and what it
    starts if it is idle. *)
Definition sys_step (s : system) (e : nat * call) : system :=
  match threads s !! e.1 with
  | None => s
  | Some p =>
      let '(m', p') := thread_step e.2 (counter s) p in
      System m' (<[e.1 := p']> (threads s))
  end.

Definition run (sched : list (nat * call)) (s : system) : system :=
  fold_left sys_step sched s.

(** [CtrlCStateMachine() : m_number_of_external_processes(0)]. *)
Definition init (n : nat) : system := System 0 (replicate n Idle).

Fixpoint count (f : pc -> bool) (l : list pc) : Z :=
  match l with
  | [] => 0
  | p :: l' => (if f p then 1 else 0) + count f l'
  end.

Definition is_exiting (p : pc) : bool :=
  match p with Exiting => true | _ => false end.
Definition is_blocked (p : pc) : bool :=
  match p with Blocked => true | _ => false end.
(** Threads counted by the counter: past a successful increment, before
    the decrement. *)
Definition is_outstanding (p : pc) : bool :=
  match p with Entered | Blocked | Waited => true | _ => false end.

(** *** The three member functions, run without interference *)

Inductive outcome : Type := Returns | SleepsForever | CallsExit.

Definition result_of (p : pc) : option outcome :=
  match p with
  | Entered | Idle => Some Returns
  | Sleeping => Some SleepsForever
  | Exiting => Some CallsExit
  | _ => None
  end.

(** Steps of one thread until its call is over; [None] when the fuel does
    not suffice. *)
Fixpoint run_call (fuel : nat) (m : Z) (p : pc) : option (Z * outcome) :=
  let '(m', p') := thread_step CallSpawn m p in
  match result_of p' with
  | Some o => Some (m', o)
  | None =>
      match fuel with
      | O => None
      | S fuel' => run_call fuel' m' p'
      end
  end.

Definition transition_to_spawn_process (m : Z) : option (Z * outcome) :=
  run_call 1 m (Spawn_cas 0).
Definition transition_from_spawn_process (m : Z) : option (Z * outcome) :=
  run_call 0 m Waited.
Definition transition_handle_ctrl_c (m : Z) : option (Z * outcome) :=
  run_call 1 m (CtrlC_cas 0).

(** A sequence of coordinator calls made one after the other on the
    counter; the outcome of each is recorded.  A call that sleeps forever
    or exits leaves the counter as it set it, and the calls that follow
    are made by other threads. *)
Inductive op : Type := PreSpawn | PostCompletion | Interrupt.

Definition do_op (o : op) (m : Z) : option (Z * outcome) :=
  match o with
  | PreSpawn => transition_to_spawn_process m
  | PostCompletion => transition_from_spawn_process m
  | Interrupt => transition_handle_ctrl_c m
  end.

Fixpoint do_ops (os : list op) (m : Z) : option (Z * list outcome) :=
  match os with
  | [] => Some (m, [])
  | o :: os' =>
      match do_op o m with
      | None => None
      | Some (m', r) =>
          match do_ops os' m' with
          | None => None
          | Some (m'', rs) => Some (m'', r :: rs)
          end
      end
  end.

End CtrlC.


(** ** The environment builder *)

Module Env.

(** [struct Environment { std::wstring m_env_data; }]: the block handed to
    [CreateProcessW], every entry terminated by [L'\0']. *)
Record Environment : Type := { m_env_data : list ascii }.

Definition NUL : ascii := "000"%char.

(** The block is kept as the sequence of its [NAME=VALUE] entries;
    [render] is the [std::wstring] that the appends build. *)
Definition render_entry (e : string * string) : list ascii :=
  list_ascii_of_string e.1 ++ ["="%char] ++ list_ascii_of_string e.2 ++ [NUL].

Definition render (es : list (string * string)) : Environment :=
  {| m_env_data := concat (map render_entry es) |}.

(** The initializer of [env_wstrings]. *)
Definition allow_list : list string :=
  [ "ALLUSERSPROFILE"; "APPDATA"; "CommonProgramFiles";
    "CommonProgramFiles(x86)"; "CommonProgramW6432"; "COMPUTERNAME";
    "ComSpec"; "HOMEDRIVE"; "HOMEPATH"; "LOCALAPPDATA"; "LOGONSERVER";
    "NUMBER_OF_PROCESSORS"; "OS"; "PATHEXT"; "PROCESSOR_ARCHITECTURE";
    "PROCESSOR_ARCHITEW6432"; "PROCESSOR_IDENTIFIER"; "PROCESSOR_LEVEL";
    "PROCESSOR_REVISION"; "ProgramData"; "ProgramFiles";
    "ProgramFiles(x86)"; "ProgramW6432"; "PROMPT"; "PSModulePath";
    "PUBLIC"; "SystemDrive"; "SystemRoot"; "TEMP"; "TMP"; "USERDNSDOMAIN";
    "USERDOMAIN"; "USERDOMAIN_ROAMINGPROFILE"; "USERNAME"; "USERPROFILE";
    "windir"; "http_proxy"; "https_proxy"; "CUDA_PATH"; "CUDA_PATH_V9_0";
    "CUDA_PATH_V9_1"; "CUDA_PATH_V10_0"; "CUDA_PATH_V10_1";
    "CUDA_TOOLKIT_ROOT_DIR"; "NVCUDASAMPLES_ROOT"; "VULKAN_SDK";
    "ANDROID_NDK_HOME" ]%string.

Definition is_empty (s : string) : bool :=
  match s with EmptyString => true | _ => false end.

Section get_environment.
(** [System::get_environment_variable] in the current process. *)
Variable get_environment_variable : string -> option string.
(** [Strings::split] (declared in [vcpkg/base/strings.h], not part of this
    file): whatever it returns for the value and [";"]. *)
Variable Strings_split : string -> string -> list string.

(** [env_wstrings] after the [VCPKG_KEEP_ENV_VARS] names are pushed. *)
Definition env_wstrings : list string :=
  allow_list ++
  match get_environment_variable "VCPKG_KEEP_ENV_VARS" with
  | Some k => if negb (is_empty k) then Strings_split k ";" else []
  | None => []
  end.

(** The first [for] loop: one entry per name whose value is there and
    not empty. *)
Fixpoint base_entries (names : list string) : list (string * string) :=
  match names with
  | [] => []
  | env_wstring :: names' =>
      match get_environment_variable env_wstring with
      | None => base_entries names'
      | Some v =>
          if is_empty v then base_entries names'
          else (env_wstring, v) :: base_entries names'
      end
  end.

(** The last [for] loop, over [extra_env] in its iteration order. *)
Fixpoint extra_entries (items : list (string * string)) : list (string * string) :=
  match items with
  | [] => []
  | item :: items' =>
      if String.eqb item.1 "PATH" then extra_entries items'
      else item :: extra_entries items'
  end.

(** The value after [Path=] in [new_path]. *)
Definition new_path (SYSTEM_ROOT : string) (extra_env : gmap string string)
    (prepend_to_path : string) : string :=
  let SYSTEM_32 := SYSTEM_ROOT +:+ "\system32" in
  let p := prepend_to_path +:+ SYSTEM_32 +:+ ";" +:+ SYSTEM_ROOT +:+ ";"
           +:+ SYSTEM_32 +:+ "\Wbem;" +:+ SYSTEM_32
           +:+ "\WindowsPowerShell\v1.0\" in
  match extra_env !! "PATH"%string with
  | Some extra_path => p +:+ ";" +:+ extra_path
  | None => p
  end.

(** The entries of the block, in the order they are appended; [None]
    when [value_or_exit] leaves the process because [SystemRoot] is not
    set. *)
Definition get_environment_entries (extra_env : gmap string string)
    (prepend_to_path : string) : option (list (string * string)) :=
  match get_environment_variable "SystemRoot" with
  | None => None
  | Some SYSTEM_ROOT =>
      Some (base_entries env_wstrings
            ++ [("Path"%string, new_path SYSTEM_ROOT extra_env prepend_to_path);
                ("VSLANG"%string, "1033"%string)]
            ++ extra_entries (map_to_list extra_env))
  end.

Definition get_environment (extra_env : gmap string string)
    (prepend_to_path : string) : option Environment :=
  render <$> get_environment_entries extra_env prepend_to_path.

(** [get_clean_environment]: [get_environment({})], [prepend_to_path]
    defaulted to the empty string. *)
Definition get_clean_environment : option Environment :=
  get_environment ∅ "".
End get_environment.

(** The names bound in a block. *)
Definition names (es : list (string * string)) : list string := map fst es.

(** A variable lookup that returns the first entry of a name, and one that
    returns the last. *)
Fixpoint lookup_first (n : string) (es : list (string * string)) : option string :=
  match es with
  | [] => None
  | (k, v) :: es' => if String.eqb k n then Some v else lookup_first n es'
  end.

Definition lookup_last (n : string) (es : list (string * string)) : option string :=
  lookup_first n (rev es).

(** The names the block is said to hold: the allow-listed variables whose
    value in the current process is there and not empty, the caller's
    extra variables, and the search-path variable. *)
Definition claimed_name (get_environment_variable : string -> option string)
    (extra_env : gmap string string) (n : string) : Prop :=
  (In n allow_list /\
   exists v, get_environment_variable n = Some v /\ is_empty v = false) \/
  is_Some (extra_env !! n) \/
  n = "Path"%string.

(** [n] is bound to [v] in place of every other binding: no entry of the
    block binds [n] to anything else. *)
Definition replaces (es : list (string * string)) (n v : string) : Prop :=
  forall v', In (n, v') es -> v' = v.

(** A process environment given by a finite table, and a [Strings::split]
    on one-character delimiters, for concrete runs. *)
Definition env_of (tbl : list (string * string)) (n : string) : option string :=
  lookup_first n tbl.

Fixpoint split_on (d : ascii) (s : string) (acc : string) : list string :=
  match s with
  | EmptyString => if is_empty acc then [] else [acc]
  | String c s' =>
      if Ascii.eqb c d then acc :: split_on d s' ""
      else split_on d s' (acc +:+ String c "")
  end.

Definition split_chars (s delimiter : string) : list string :=
  match delimiter with
  | String d EmptyString => split_on d s ""
  | _ => [s]
  end.

End Env.


(** ** Process spawning, output streaming, environment-diff extraction *)

Module Proc.
Import CtrlC.

Definition LF : ascii := "010"%char.
Definition CR : ascii := "013"%char.

(** [std::find(first, last, c)] on the range held in [l]: the offset of the
    first [c], [length l] (the end iterator) when there is none. *)
Fixpoint find (c : ascii) (l : list ascii) : nat :=
  match l with
  | [] => O
  | x :: l' => if Ascii.eqb x c then O else S (find c l')
  end.

(** What one [ReadFile] call on the read end of the output pipe gives:
    [TRUE] with the bytes read (at most [sizeof(buf)], which the loop does
    not depend on), or [FALSE] with the value of [GetLastError()]. *)
Inductive read_result : Type :=
| ReadOk (bytes : list ascii)
| ReadFailed (last_error : Z).

(** The write end was closed and the pipe is empty: end of the stream. *)
Definition ERROR_BROKEN_PIPE : Z := 109.
(** An I/O error proper. *)
Definition ERROR_OPERATION_ABORTED : Z := 995.

(** What the operating system and the child do during one call.  Once
    [reads] is used up, [ReadFile] returns [FALSE] (broken pipe). *)
Record child : Type := Child {
  pipes_ok : bool;            (* CreatePipe and SetHandleInformation succeed *)
  create_ok : bool;           (* CreateProcessW returns TRUE *)
  reads : list read_result;   (* successive ReadFile results *)
  wait_ok : bool;             (* WaitForSingleObject != WAIT_FAILED *)
  exit_status : option Z;     (* DWORD stored by GetExitCodeProcess, if it stores one *)
  ctrl_c_hits : nat           (* CTRL_C_EVENTs handled while the caller is blocked *)
}.

(** How a call ends: it returns, the process exits (a failed
    [Checks::check_exit] / [Checks::exit_fail], or
    [Checks::final_cleanup_and_exit]), or the thread sleeps forever. *)
Inductive result (A : Type) : Type :=
| Returned (a : A)
| ProcessExits
| Hangs.
Arguments Returned {A} a.
Arguments ProcessExits {A}.
Arguments Hangs {A}.

(** [ProcessInfo::wait_and_close_handles]: [exit_code] starts as [0]. *)
Definition wait_and_close_handles (ch : child) : result Z :=
  if wait_ok ch then
    Returned (match exit_status ch with Some c => c | None => 0 end)
  else ProcessExits.

(** [ctrl_handler] running [n] times while the caller is blocked; the flag
    tells that a handler called [final_cleanup_and_exit]. *)
Fixpoint ctrl_c_while_blocked (n : nat) (m : Z) : option (Z * bool) :=
  match n with
  | O => Some (m, false)
  | S n' =>
      '(m', o) ← transition_handle_ctrl_c m;
      match o with
      | CallsExit => Some (m', true)
      | _ => ctrl_c_while_blocked n' m'
      end
  end.

(** The end of both blocking calls, from
    [g_ctrl_c_state.transition_from_spawn_process()] on. *)
Definition leave_spawn {A : Type} (m : Z) (a : A) : option (Z * result A) :=
  '(m', o) ← transition_from_spawn_process m;
  Some (m', match o with
            | Returns => Returned a
            | SleepsForever => Hangs
            | CallsExit => ProcessExits
            end).

(** [System::cmd_execute], [_WIN32] branch, on the counter [m]. *)
Definition cmd_execute (m : Z) (ch : child) : option (Z * result Z) :=
  '(m1, o1) ← transition_to_spawn_process m;
  match o1 with
  | SleepsForever => Some (m1, Hangs)
  | CallsExit => Some (m1, ProcessExits)
  | Returns =>
      if negb (create_ok ch) then Some (m1, ProcessExits)
      else
        '(m2, exited) ← ctrl_c_while_blocked (ctrl_c_hits ch) m1;
        if (exited : bool) then Some (m2, ProcessExits)
        else
          match wait_and_close_handles ch with
          | Returned code => leave_spawn m2 (wrap_int code)
          | ProcessExits => Some (m2, ProcessExits)
          | Hangs => Some (m2, Hangs)
          end
  end.

Section streaming.
Context {S : Type}.
(** The callback, as a function on the state it captures. *)
Variable f : S -> list ascii -> S.

(** The [while (ReadFile(...) && bytes_read > 0)] loop of
    [wait_and_stream_output]. *)
Fixpoint read_loop (pipe : list read_result) (st : S) : S :=
  match pipe with
  | ReadOk bytes :: pipe' =>
      if (0 <? length bytes)%nat then read_loop pipe' (f st bytes) else st
  | _ => st
  end.

(** [ProcessInfoAndPipes::wait_and_stream_output]; the [unsigned int] of
    [wait_and_close_handles] is returned as an [int]. *)
Definition wait_and_stream_output (ch : child) (st : S) : S * result Z :=
  let st' := read_loop (reads ch) st in
  (st', match wait_and_close_handles ch with
        | Returned code => Returned (wrap_int code)
        | ProcessExits => ProcessExits
        | Hangs => Hangs
        end).

(** [System::cmd_execute_and_stream_data], [_WIN32] branch. *)
Definition cmd_execute_and_stream_data (m : Z) (ch : child) (st : S)
    : option (Z * S * result Z) :=
  '(m1, o1) ← transition_to_spawn_process m;
  match o1 with
  | SleepsForever => Some (m1, st, Hangs)
  | CallsExit => Some (m1, st, ProcessExits)
  | Returns =>
      if negb (pipes_ok ch && create_ok ch) then Some (m1, st, ProcessExits)
      else
        '(m2, exited) ← ctrl_c_while_blocked (ctrl_c_hits ch) m1;
        let '(st', r) := wait_and_stream_output ch st in
        if (exited : bool) then Some (m2, st', ProcessExits)
        else
          match r with
          | Returned exit_code =>
              '(m3, r') ← leave_spawn m2 exit_code; Some (m3, st', r')
          | ProcessExits => Some (m2, st', ProcessExits)
          | Hangs => Some (m2, st', Hangs)
          end
  end.
End streaming.

(** *** The [popen] branch of [cmd_execute_and_stream_data] *)

Record posix_child : Type := PosixChild {
  popen_ok : bool;                  (* popen returned a stream *)
  fgets_bufs : list (list ascii);   (* buf after each fgets that returned non-null *)
  at_eof : bool;                    (* feof(pipe) once fgets returned null *)
  pclose_status : Z
}.

(** [StringView{buf, strlen(buf)}]. *)
Fixpoint strlen_view (buf : list ascii) : list ascii :=
  match buf with
  | [] => []
  | c :: buf' => if Ascii.eqb c "000"%char then [] else c :: strlen_view buf'
  end.

Definition cmd_execute_and_stream_data_posix {S : Type}
    (data_cb : S -> list ascii -> S) (ch : posix_child) (st : S) : S * Z :=
  if negb (popen_ok ch) then (st, 1)
  else
    let st' := fold_left (fun st buf => data_cb st (strlen_view buf))
                         (fgets_bufs ch) st in
    if negb (at_eof ch) then (st', 1) else (st', pclose_status ch).

(** *** [cmd_execute_and_capture_output] *)

Record ExitCodeAndOutput : Type :=
  { exit_code : Z; output : list ascii }.

Definition cmd_execute_and_capture_output (m : Z) (ch : child)
    : option (Z * result ExitCodeAndOutput) :=
  '(m', out, r) ← cmd_execute_and_stream_data (fun out sv => out ++ sv) m ch [];
  Some (m', match r with
            | Returned rc => Returned {| exit_code := rc; output := out |}
            | ProcessExits => ProcessExits
            | Hangs => Hangs
            end).

(** *** [cmd_execute_and_stream_lines] *)

(** The [while (it != buf.end())] loop of the lambda; [cbs] lists the
    arguments [per_line_cb] has been called with so far. *)
Fixpoint emit_lines (fuel : nat) (it : nat) (buf : list ascii)
    (cbs : list (list ascii)) : option (list ascii * list (list ascii)) :=
  if (it =? length buf)%nat then Some (buf, cbs)
  else
    match fuel with
    | O => None
    | S fuel' =>
        let s := take it buf in
        let buf' := drop (S it) buf in
        emit_lines fuel' (find LF buf') buf' (cbs ++ [s])
    end.

(** The lambda handed to [cmd_execute_and_stream_data]; its state is [buf]
    and the calls of [per_line_cb] made so far ([None]: the loop above ran
    out of fuel). *)
Definition lines_data_cb (st : option (list ascii * list (list ascii)))
    (sv : list ascii) : option (list ascii * list (list ascii)) :=
  '(buf, cbs) ← st;
  let prev_size := length buf in
  let buf := buf ++ sv in
  let it := (prev_size + find LF (drop prev_size buf))%nat in
  emit_lines (length buf) it buf cbs.

(** The counter, the arguments of all [per_line_cb] calls in order, and
    how the call ends. *)
Definition cmd_execute_and_stream_lines (m : Z) (ch : child)
    : option (Z * list (list ascii) * result Z) :=
  '(m', st, r) ← cmd_execute_and_stream_data lines_data_cb m ch (Some ([], []));
  '(buf, cbs) ← st;
  Some (m', match r with Returned _ => cbs ++ [buf] | _ => cbs end, r).

(** *** [cmd_execute_modify_env] *)

Definition magic_string : list ascii :=
  list_ascii_of_string "cdARN4xjKueKScMy9C6H".

Fixpoint is_prefix (p l : list ascii) : bool :=
  match p, l with
  | [], _ => true
  | _ :: _, [] => false
  | a :: p', b :: l' => Ascii.eqb a b && is_prefix p' l'
  end.

(** Modelled from the spec: [Strings::search] is declared in
    [vcpkg/base/strings.h], which is not part of this file.  The buffer is
    scanned for the first exact occurrence of the needle; the result is
    its offset, [length haystack] (the end pointer) when there is none. *)
Fixpoint search (haystack needle : list ascii) : nat :=
  if is_prefix needle haystack then O
  else
    match haystack with
    | [] => O
    | _ :: haystack' => S (search haystack' needle)
    end.

(** The [while (1)] loop; [rest] is the range from [it] to [e]. *)
Fixpoint parse_set_output (fuel : nat) (rest : list ascii)
    : option (list (list ascii * list ascii)) :=
  let eq := find "="%char rest in
  if (eq =? length rest)%nat then Some []
  else
    let varname := take eq rest in
    let after_eq := drop (S eq) rest in
    let nl := find CR after_eq in
    if (nl =? length after_eq)%nat then Some []
    else
      let value := take nl after_eq in
      let rest' := drop (S nl) after_eq in
      let rest'' := match rest' with
                    | c :: r => if Ascii.eqb c LF then r else rest'
                    | [] => rest'
                    end in
      match fuel with
      | O => None
      | S fuel' => cons (varname, value) <$> parse_set_output fuel' rest''
      end.

(** [out_env]: each pair appended as [varname=value] and a [L'\0']. *)
Definition out_env (es : list (list ascii * list ascii)) : Env.Environment :=
  {| Env.m_env_data :=
       concat (map (fun e => e.1 ++ ["="%char] ++ e.2 ++ [Env.NUL]) es) |}.

(** The pairs that [cmd_execute_modify_env] puts in the block it
    returns. *)
Definition cmd_execute_modify_env_pairs (m : Z) (ch : child)
    : option (Z * result (list (list ascii * list ascii))) :=
  '(m', r) ← cmd_execute_and_capture_output m ch;
  match r with
  | Returned rc_output =>
      if negb (exit_code rc_output =? 0) then Some (m', ProcessExits)
      else
        let needle := magic_string ++ [CR; LF] in
        let it := search (output rc_output) needle in
        if (it =? length (output rc_output))%nat then Some (m', ProcessExits)
        else
          let rest := drop (it + length magic_string + 2) (output rc_output) in
          es ← parse_set_output (length rest) rest;
          Some (m', Returned es)
  | ProcessExits => Some (m', ProcessExits)
  | Hangs => Some (m', Hangs)
  end.

Definition cmd_execute_modify_env (m : Z) (ch : child)
    : option (Z * result Env.Environment) :=
  '(m', r) ← cmd_execute_modify_env_pairs m ch;
  Some (m', match r with
            | Returned es => Returned (out_env es)
            | ProcessExits => ProcessExits
            | Hangs => Hangs
            end).

(** *** Reference functions the results are compared with *)

Definition bytes (s : string) : list ascii := list_ascii_of_string s.

(** Number of [c] in [l]. *)
Fixpoint occurrences (c : ascii) (l : list ascii) : nat :=
  match l with
  | [] => O
  | x :: l' => ((if Ascii.eqb x c then 1 else 0) + occurrences c l')%nat
  end.

(** The lines put together again, an ['\n'] after each but the last. *)
Fixpoint unlines (ls : list (list ascii)) : list ascii :=
  match ls with
  | [] => []
  | [l] => l
  | l :: ls' => l ++ LF :: unlines ls'
  end.

(** The text cut at every ['\n'], the ['\n'] dropped: the pieces before,
    between and after the terminators. *)
Fixpoint split_lines (l : list ascii) : list (list ascii) :=
  match l with
  | [] => [[]]
  | c :: l' =>
      if Ascii.eqb c LF then [] :: split_lines l'
      else
        match split_lines l' with
        | [] => [[c]]
        | x :: xs => (c :: x) :: xs
        end
  end.

(** What [set] prints for the pairs [ps]: a [NAME=VALUE] line each, ended
    by ["\r\n"]. *)
Definition set_line (e : list ascii * list ascii) : list ascii :=
  e.1 ++ "="%char :: e.2 ++ [CR; LF].

Definition set_lines (ps : list (list ascii * list ascii)) : list ascii :=
  concat (map set_line ps).

(** A pair that the loop reads back as it was printed. *)
Definition well_formed (e : list ascii * list ascii) : bool :=
  (occurrences "="%char e.1 =? 0)%nat && (occurrences CR e.2 =? 0)%nat.

(** The sentinel line looked for in the output. *)
Definition sentinel : list ascii := magic_string ++ [CR; LF].

(** A child that starts, is read to the end and waited on while no Ctrl-C
    arrives and none was requested before. *)
Definition undisturbed (m : Z) (ch : child) : bool :=
  (0 <=? m) && (m <? INT_MAX) && pipes_ok ch && create_ok ch && wait_ok ch
  && (ctrl_c_hits ch =? 0)%nat.

(** A pipe on which every [ReadFile] succeeds with one of [chunks]. *)
Definition pipe_of (chunks : list (list ascii)) : list read_result :=
  map ReadOk chunks.

Definition nonempty (l : list ascii) : bool :=
  match l with [] => false | _ => true end.

(** The chunks that the [ReadFile] loop hands to the callback: the reads
    before the first one that fails or is empty. *)
Fixpoint delivered (pipe : list read_result) : list (list ascii) :=
  match pipe with
  | ReadOk bytes :: pipe' =>
      if (0 <? length bytes)%nat then bytes :: delivered pipe' else []
  | _ => []
  end.

End Proc.


(** ** Invariant of the coordinator *)

Import CtrlC Env Proc.

(** A local [cur] / [old_value] about to be compared is never negative:
    a negative value read back ends the loop. *)
Definition pending_ok (p : pc) : Prop :=
  match p with
  | Spawn_cas cur => 0 <= cur
  | CtrlC_cas old => 0 <= old
  | _ => True
  end.

(** With [k] threads between increment and decrement: the counter is [k]
    and nobody exits, or a Ctrl-C was taken, the counter is [INT_MIN + k],
    and there is an exiting thread exactly when [k = 0]. *)
Definition coordinated (n : nat) (s : system) : Prop :=
  length (threads s) = n /\
  Forall pending_ok (threads s) /\
  let k := count is_outstanding (threads s) in
  let e := count is_exiting (threads s) in
  (counter s = k /\ e = 0) \/
  (counter s = INT_MIN + k /\ ((k = 0 /\ e = 1) \/ (0 < k /\ e = 0))).

(** ** Reading a block back *)

(** The entries of a block: the texts that a [L'\0'] ends. *)
Fixpoint block_entries (block : list ascii) : list (list ascii) :=
  match block with
  | [] => []
  | c :: block' =>
      if Ascii.eqb c NUL then [] :: block_entries block'
      else
        match block_entries block' with
        | [] => []
        | e :: es => (c :: e) :: es
        end
  end.

(** An entry cut at its first ['=']. *)
Definition entry_pair (e : list ascii) : list ascii * list ascii :=
  (take (find "="%char e) e, drop (S (find "="%char e)) e).

(** Names and values that can be read back: no [L'\0'] in either, no
    ['='] in the name. *)
Definition readable (e : string * string) : bool :=
  (occurrences NUL (bytes e.1) =? 0)%nat
  && (occurrences NUL (bytes e.2) =? 0)%nat
  && (occurrences "="%char (bytes e.1) =? 0)%nat.

(** The weight of a thread in a count. *)
Definition b2z (b : bool) : Z := if b then 1 else 0.

(** ** Host architecture *)

Module Arch.

Inductive CPUArchitecture : Type := X86 | X64 | ARM | ARM64.

Section host.
(** [Strings::case_insensitive_ascii_equals] (declared in
    [vcpkg/base/strings.h], not part of this file). *)
Variable case_insensitive_ascii_equals : string -> string -> bool.
(** [System::get_environment_variable] in the current process. *)
Variable get_environment_variable : string -> option string.

(** [System::to_cpu_architecture]. *)
Definition to_cpu_architecture (arch : string) : option CPUArchitecture :=
  if case_insensitive_ascii_equals arch "x86" then Some X86
  else if case_insensitive_ascii_equals arch "x64" then Some X64
  else if case_insensitive_ascii_equals arch "amd64" then Some X64
  else if case_insensitive_ascii_equals arch "arm" then Some ARM
  else if case_insensitive_ascii_equals arch "arm64" then Some ARM64
  else None.

(** [System::get_host_processor], [_WIN32] branch; [None] when a
    [value_or_exit] leaves the process. *)
Definition get_host_processor : option CPUArchitecture :=
  match get_environment_variable "PROCESSOR_ARCHITEW6432" with
  | Some p => to_cpu_architecture p
  | None =>
      match get_environment_variable "PROCESSOR_ARCHITECTURE" with
      | Some procarch => to_cpu_architecture procarch
      | None => None
      end
  end.

(** [System::get_supported_host_architectures]. *)
Definition get_supported_host_architectures : option (list CPUArchitecture) :=
  match get_host_processor with
  | None => None
  | Some host =>
      let supported_architectures := [host] in
      match host with
      | X64 => Some (supported_architectures ++ [X86])
      | _ => Some supported_architectures
      end
  end.
End host.

(** A comparison that ignores the case of ASCII letters, for concrete
    runs. *)
Definition ascii_lower (c : ascii) : ascii :=
  let n := nat_of_ascii c in
  if ((65 <=? n) && (n <=? 90))%nat then ascii_of_nat (n + 32) else c.

Fixpoint string_lower (s : string) : string :=
  match s with
  | EmptyString => EmptyString
  | String c s' => String (ascii_lower c) (string_lower s')
  end.

Definition ascii_ci_equals (a b : string) : bool :=
  String.eqb (string_lower a) (string_lower b).

End Arch.

(** ** Further predicates on threads and schedules *)

Definition is_sleeping (p : pc) : bool :=
  match p with Sleeping => true | _ => false end.

Definition is_entered (p : pc) : bool :=
  match p with Entered => true | _ => false end.

(** A schedule in which no thread takes a Ctrl-C. *)
Definition no_ctrl_c (sched : list (nat * call)) : bool :=
  forallb (fun e => match e.2 with CallSpawn => true | CallCtrlC => false end)
          sched.

(** A thread of a process in which no Ctrl-C was ever taken. *)
Definition worker_pc (p : pc) : Prop :=
  match p with
  | Idle | Entered | Blocked | Waited => True
  | Spawn_cas cur => 0 <= cur
  | CtrlC_cas _ | Sleeping | Exiting => False
  end.

(** The counter is a plain count of the threads between increment and
    decrement. *)
Definition counting (n : nat) (s : system) : Prop :=
  length (threads s) = n /\
  Forall worker_pc (threads s) /\
  counter s = count is_outstanding (threads s).

(** An exit status as [cmd_execute] returns it. *)
Definition as_int (status : Z) : Z :=
  if status <? 2 ^ 31 then status else status - 2 ^ 32.

(** A read that ends the [ReadFile] loop: none left, a failed one, or a
    successful one of zero bytes. *)
Definition ends_stream (pipe : list read_result) : bool :=
  match pipe with
  | [] => true
  | ReadOk bytes :: _ => negb (nonempty bytes)
  | ReadFailed _ :: _ => true
  end.

(** A [NAME=VALUE] line ended by a lone ['\r']. *)
Definition set_line_cr (e : list ascii * list ascii) : list ascii :=
  e.1 ++ "="%char :: e.2 ++ [CR].

Definition starts_with_LF (l : list ascii) : bool :=
  match l with
  | c :: _ => Ascii.eqb c LF
  | [] => false
  end.

(* ===================================================================== *)
(** * Part II: properties                                                 *)
(* ===================================================================== *)

(** ** Integers *)

Lemma INT_MIN_val : INT_MIN = -2147483648.
Proof. reflexivity. Qed.

Lemma INT_MAX_val : INT_MAX = 2147483647.
Proof. reflexivity. Qed.

Lemma wrap_int_id (z : Z) : INT_MIN <= z <= INT_MAX -> wrap_int z = z.
Proof.
  rewrite INT_MIN_val, INT_MAX_val. intros Hz. unfold wrap_int.
  change (2 ^ 31) with 2147483648. change (2 ^ 32) with 4294967296.
  rewrite Z.mod_small; lia.
Qed.

(** ** The coordinator under every interleaving *)

Section Counting.
Variable f : pc -> bool.

Lemma count_cons p l : count f (p :: l) = b2z (f p) + count f l.
Proof. reflexivity. Qed.

Lemma count_nonneg l : 0 <= count f l.
Proof. induction l as [|p l IH]; simpl; [lia|]. destruct (f p); lia. Qed.

Lemma count_insert l i x y :
  l !! i = Some x ->
  count f (<[i:=y]> l) = count f l - b2z (f x) + b2z (f y).
Proof.
  revert i. induction l as [|p l IH]; intros [|i] Hi; simplify_eq/=.
  - unfold b2z. destruct (f x), (f y); lia.
  - rewrite (IH i Hi). unfold b2z. destruct (f p), (f x), (f y); lia.
Qed.

Lemma count_lt_length l i x :
  l !! i = Some x -> f x = false -> count f l < Z.of_nat (length l).
Proof.
  revert i. induction l as [|p l IH]; intros [|i] Hi Hx; simplify_eq/=.
  - rewrite Hx.
    assert (count f l <= Z.of_nat (length l)).
    { clear. induction l as [|q l IH]; simpl; [lia|]. destruct (f q); lia. }
    lia.
  - specialize (IH i Hi Hx). destruct (f p); lia.
Qed.

Lemma count_pos l i x :
  l !! i = Some x -> f x = true -> 0 < count f l <= Z.of_nat (length l).
Proof.
  revert i. induction l as [|p l IH]; intros [|i] Hi Hx; simplify_eq/=.
  - rewrite Hx.
    assert (0 <= count f l <= Z.of_nat (length l)).
    { clear. induction l as [|q l IH]; simpl; [lia|]. destruct (f q); lia. }
    lia.
  - specialize (IH i Hi Hx). destruct (f p); lia.
Qed.

Lemma count_replicate k p : f p = false -> count f (replicate k p) = 0.
Proof. intros Hp. induction k as [|k IH]; simpl; [done|]. rewrite Hp. lia. Qed.
End Counting.

Lemma coordinated_init n : coordinated n (init n).
Proof.
  unfold coordinated, init; simpl. split; [apply length_replicate|].
  split.
  - apply Forall_replicate. exact I.
  - left. rewrite !count_replicate by reflexivity. done.
Qed.

Lemma coordinated_step n s e :
  Z.of_nat n <= INT_MAX -> coordinated n s -> coordinated n (sys_step s e).
Proof.
  intros Hn (Hlen & Hpend & Hcnt). unfold sys_step.
  destruct (threads s !! e.1) as [p|] eqn:Hp; [|by repeat split].
  pose proof (Forall_lookup_1 _ _ _ _ Hpend Hp) as Hpp.
  pose proof (count_nonneg is_outstanding (threads s)) as Hk0.
  pose proof (count_nonneg is_exiting (threads s)) as He0.
  destruct (thread_step e.2 (counter s) p) as [m' p'] eqn:Hstep.
  assert (Hgoal : pending_ok p' /\
    let k := count is_outstanding (threads s) - b2z (is_outstanding p)
             + b2z (is_outstanding p') in
    let e := count is_exiting (threads s) - b2z (is_exiting p)
             + b2z (is_exiting p') in
    (m' = k /\ e = 0) \/
    (m' = INT_MIN + k /\ ((k = 0 /\ e = 1) \/ (0 < k /\ e = 0)))).
  { pose proof (count_lt_length is_outstanding _ _ _ Hp) as Hlt.
    pose proof (count_pos is_outstanding _ _ _ Hp) as Hpos.
    rewrite Hlen in Hlt, Hpos. rewrite INT_MAX_val in Hn.
    revert Hcnt Hstep. cbv zeta.
    generalize (count is_outstanding (threads s))
               (count is_exiting (threads s)) (counter s) Hk0 He0 Hlt Hpos.
    clear - Hn Hpp. intros k x m Hk0 He0 Hlt Hpos Hcnt Hstep.
    destruct p; simpl in *; unfold compare_exchange_strong, fetch_add in Hstep;
      repeat match type of Hstep with
             | context [if ?b then _ else _] => destruct b eqn:?
             | context [match ?c with CallSpawn => _ | CallCtrlC => _ end] =>
                 destruct c
             end;
      simplify_eq/=;
      try (specialize (Hlt eq_refl)); try (specialize (Hpos eq_refl));
      rewrite ?INT_MIN_val in *;
      try (rewrite wrap_int_id by (rewrite INT_MIN_val, INT_MAX_val; lia));
      lia. }
  destruct Hgoal as [Hp' Hgoal]. unfold coordinated. cbn [threads counter].
  split; [by rewrite length_insert|].
  split; [by apply Forall_insert|].
  rewrite !(count_insert _ _ _ _ _ Hp). exact Hgoal.
Qed.

Lemma coordinated_run n sched s :
  Z.of_nat n <= INT_MAX -> coordinated n s -> coordinated n (run sched s).
Proof.
  intros Hn. revert s. induction sched as [|e sched IH]; intros s Hs; [done|].
  simpl. apply IH. by apply coordinated_step.
Qed.

(** A thread that exits stays so. *)
Lemma thread_step_exiting c m : thread_step c m Exiting = (m, Exiting).
Proof. reflexivity. Qed.

Lemma sys_step_at s i c p :
  threads s !! i = Some p ->
  sys_step s (i, c) =
  System (thread_step c (counter s) p).1
         (<[i := (thread_step c (counter s) p).2]> (threads s)).
Proof.
  intros Hi. unfold sys_step. cbn [fst snd]. rewrite Hi.
  by destruct (thread_step c (counter s) p).
Qed.

(** C1. From the idle state ([m_number_of_external_processes = 0], every
    thread outside the coordinator), under every schedule of the atomic
    steps of [transition_to_spawn_process], [transition_from_spawn_process]
    and [transition_handle_ctrl_c] by at most [INT_MAX] threads:
    (a) at most one thread ever is in [Checks::final_cleanup_and_exit];
    (b) while a thread is there, no thread has a child that it created and
        has not waited on;
    (c) a thread that takes a Ctrl-C while the counter stays [0] goes
        straight to [Checks::final_cleanup_and_exit]. *)
Theorem ctrl_c_shutdown_once_after_children (n : nat) (sched : list (nat * call)) :
  Z.of_nat n <= INT_MAX ->
  let s := run sched (init n) in
  count is_exiting (threads s) <= 1 /\
  (0 < count is_exiting (threads s) -> count is_blocked (threads s) = 0) /\
  (forall i, counter s = 0 -> threads s !! i = Some Idle ->
     let s' := run [(i, CallCtrlC); (i, CallCtrlC)] s in
     threads s' !! i = Some Exiting /\ counter s' = INT_MIN).
Proof.
  intros Hn s.
  pose proof (coordinated_run n sched (init n) Hn (coordinated_init n))
    as (Hlen & Hpend & Hcnt).
  fold s in Hlen, Hpend, Hcnt. cbv zeta in Hcnt.
  pose proof (count_nonneg is_outstanding (threads s)) as Hk0.
  split; [lia|]. split.
  - intros He.
    assert (Hk : count is_outstanding (threads s) = 0) by lia.
    clear - Hk. induction (threads s) as [|p l IH]; [done|].
    rewrite count_cons in Hk |- *.
    pose proof (count_nonneg is_outstanding l).
    destruct p; simpl in *; try lia; apply IH; lia.
  - intros i Hc Hi. cbv zeta.
    assert (Hlt : (i < length (threads s))%nat) by (eapply lookup_lt_Some; eauto).
    change (run [(i, CallCtrlC); (i, CallCtrlC)] s)
      with (sys_step (sys_step s (i, CallCtrlC)) (i, CallCtrlC)).
    rewrite (sys_step_at s i CallCtrlC Idle Hi). cbn [thread_step].
    erewrite sys_step_at
      by (cbn [threads]; by apply list_lookup_insert_eq).
    cbn [thread_step counter threads]. unfold compare_exchange_strong.
    rewrite Hc. cbn. split; [|reflexivity].
    apply list_lookup_insert_eq. by rewrite length_insert.
Qed.

(** The theorem at three threads: two workers enter, a Ctrl-C is handled,
    the workers leave and the second one exits; and at one thread that
    takes a Ctrl-C in the idle state. *)
Lemma ctrl_c_shutdown_once_after_children_witness :
  (let s := run [(0, CallSpawn); (0, CallSpawn);
                 (1, CallSpawn); (1, CallSpawn); (1, CallSpawn);
                 (2, CallCtrlC); (2, CallCtrlC); (2, CallCtrlC);
                 (0, CallSpawn); (0, CallSpawn); (0, CallSpawn);
                 (1, CallSpawn); (1, CallSpawn); (1, CallSpawn)]%nat (init 3) in
   Z.of_nat 3 <= INT_MAX /\ count is_exiting (threads s) = 1 /\
   count is_blocked (threads s) = 0) /\
  threads (run [(0, CallCtrlC); (0, CallCtrlC)]%nat (init 1)) !! 0%nat
  = Some Exiting.
Proof.
  assert (H3 : Z.of_nat 3 <= INT_MAX) by (vm_compute; discriminate).
  assert (H1 : Z.of_nat 1 <= INT_MAX) by (vm_compute; discriminate).
  split.
  - cbv zeta. split; [exact H3|]. split; [reflexivity|].
    eapply (proj1 (proj2 (ctrl_c_shutdown_once_after_children 3 _ H3))).
    reflexivity.
  - apply (proj2 (proj2 (ctrl_c_shutdown_once_after_children 1 [] H1)) 0%nat);
      reflexivity.
Defined.

(** ** The coordinator calls one after the other *)

(** Without interference two attempts of either compare-exchange loop
    suffice, so the three calls are total. *)
Lemma transition_to_spawn_process_eq m :
  transition_to_spawn_process m =
  Some (if m =? 0 then (wrap_int 1, Returns)
        else if m <? 0 then (m, SleepsForever)
        else (wrap_int (m + 1), Returns)).
Proof.
  unfold transition_to_spawn_process, run_call; cbn [thread_step].
  unfold compare_exchange_strong.
  destruct (m =? 0) eqn:H0; [reflexivity|].
  destruct (m <? 0) eqn:Hneg; [reflexivity|]. cbn.
  unfold compare_exchange_strong. by rewrite Z.eqb_refl.
Qed.

Lemma transition_from_spawn_process_eq m :
  transition_from_spawn_process m =
  Some (wrap_int (m + -1),
        if m =? INT_MIN + 1 then CallsExit
        else if m <? 0 then SleepsForever else Returns).
Proof.
  unfold transition_from_spawn_process, run_call; cbn [thread_step fetch_add].
  destruct (m =? INT_MIN + 1); [reflexivity|]. by destruct (m <? 0).
Qed.

Lemma transition_handle_ctrl_c_eq m :
  transition_handle_ctrl_c m =
  Some (if m =? 0 then (INT_MIN, CallsExit)
        else if m <? 0 then (m, Returns)
        else (wrap_int (m + INT_MIN), Returns)).
Proof.
  unfold transition_handle_ctrl_c, run_call; cbn [thread_step].
  unfold compare_exchange_strong.
  destruct (m =? 0) eqn:H0; [reflexivity|].
  destruct (m <? 0) eqn:Hneg; [reflexivity|]. cbn.
  unfold compare_exchange_strong. rewrite Z.eqb_refl, H0. reflexivity.
Qed.

(** C2, as stated, fails: with the interrupt between the two pre-spawn
    calls, the outcomes of the two post-completion calls are not
    "sleeps forever, then exits". *)
Lemma interrupt_between_pre_spawns_not_as_claimed :
  ~ exists m o1 o2 o3,
      do_ops [PreSpawn; Interrupt; PreSpawn; PostCompletion; PostCompletion] 0
      = Some (m, [o1; o2; o3; SleepsForever; CallsExit]).
Proof. intros (m & o1 & o2 & o3 & H). vm_compute in H. discriminate. Qed.

(** C2, amended.  From [0], two pre-spawn calls and two post-completion
    calls all return and leave the counter at [0].  With a Ctrl-C handled
    between the two pre-spawn calls, the second pre-spawn call sleeps
    forever without touching the counter and the first post-completion
    call is the one that calls [final_cleanup_and_exit].  With the Ctrl-C
    handled after both pre-spawn calls, the first post-completion call
    sleeps forever and the second calls [final_cleanup_and_exit]. *)
Theorem pre_spawn_post_completion_sequences :
  do_ops [PreSpawn; PreSpawn; PostCompletion; PostCompletion] 0
  = Some (0, [Returns; Returns; Returns; Returns]) /\
  do_ops [PreSpawn; Interrupt; PreSpawn] 0
  = Some (INT_MIN + 1, [Returns; Returns; SleepsForever]) /\
  do_ops [PreSpawn; Interrupt; PreSpawn; PostCompletion] 0
  = Some (INT_MIN, [Returns; Returns; SleepsForever; CallsExit]) /\
  do_ops [PreSpawn; PreSpawn; Interrupt; PostCompletion; PostCompletion] 0
  = Some (INT_MIN, [Returns; Returns; Returns; SleepsForever; CallsExit]).
Proof. repeat split; vm_compute; reflexivity. Qed.

(** The same three scenarios as schedules of threads: workers [0] and [1],
    handler [2]. *)
Lemma pre_spawn_post_completion_threads :
  run [(0, CallSpawn); (0, CallSpawn);
       (1, CallSpawn); (1, CallSpawn); (1, CallSpawn);
       (0, CallSpawn); (0, CallSpawn); (0, CallSpawn);
       (1, CallSpawn); (1, CallSpawn); (1, CallSpawn)]%nat (init 3)
  = System 0 [Idle; Idle; Idle] /\
  run [(0, CallSpawn); (0, CallSpawn);
       (2, CallCtrlC); (2, CallCtrlC); (2, CallCtrlC);
       (1, CallSpawn); (1, CallSpawn);
       (0, CallSpawn); (0, CallSpawn); (0, CallSpawn)]%nat (init 3)
  = System INT_MIN [Exiting; Sleeping; Idle] /\
  run [(0, CallSpawn); (0, CallSpawn);
       (1, CallSpawn); (1, CallSpawn); (1, CallSpawn);
       (2, CallCtrlC); (2, CallCtrlC); (2, CallCtrlC);
       (0, CallSpawn); (0, CallSpawn); (0, CallSpawn);
       (1, CallSpawn); (1, CallSpawn); (1, CallSpawn)]%nat (init 3)
  = System INT_MIN [Sleeping; Exiting; Idle].
Proof. repeat split; vm_compute; reflexivity. Qed.

(** ** Exit codes *)

Lemma ctrl_c_while_blocked_total n m :
  exists m' b, ctrl_c_while_blocked n m = Some (m', b).
Proof.
  revert m. induction n as [|n IH]; intros m; simpl; [by eauto|].
  rewrite transition_handle_ctrl_c_eq.
  destruct (m =? 0); simpl; [by eauto|].
  destruct (m <? 0); simpl; apply IH.
Qed.

Lemma leave_spawn_eq {A : Type} m (a : A) :
  leave_spawn m a =
  Some (wrap_int (m + -1),
        if m =? INT_MIN + 1 then ProcessExits
        else if m <? 0 then Hangs else Returned a).
Proof.
  unfold leave_spawn. rewrite transition_from_spawn_process_eq. simpl.
  destruct (m =? INT_MIN + 1); [reflexivity|]. by destruct (m <? 0).
Qed.

(** Entering and leaving with no Ctrl-C in between restores the counter. *)
Lemma enter_leave m :
  0 <= m < INT_MAX ->
  transition_to_spawn_process m = Some (m + 1, Returns) /\
  forall (A : Type) (a : A), leave_spawn (m + 1) a = Some (m, Returned a).
Proof.
  rewrite INT_MAX_val. intros Hm. split.
  - rewrite transition_to_spawn_process_eq.
    destruct (m =? 0) eqn:H0.
    + apply Z.eqb_eq in H0. by subst.
    + assert ((m <? 0) = false) as -> by lia.
      rewrite wrap_int_id by (rewrite INT_MIN_val, INT_MAX_val; lia). done.
  - intros A a. rewrite leave_spawn_eq. rewrite INT_MIN_val.
    assert ((m + 1 =? -2147483648 + 1) = false) as -> by lia.
    assert ((m + 1 <? 0) = false) as -> by lia.
    rewrite wrap_int_id by (rewrite INT_MIN_val, INT_MAX_val; lia).
    do 3 f_equal. lia.
Qed.

(** A run that ends without returning returns no wrong value. *)
Ltac no_return :=
  do 2 eexists; split; [reflexivity | intros ?; discriminate].

(** C5. A child whose exit status is 42, run through [cmd_execute]: the
    call never returns anything but 42, whatever the counter holds and
    however many Ctrl-C events arrive; and when the child is created and
    waited on, no Ctrl-C is pending and none arrives, the call returns 42
    and leaves the counter as it found it.  What the child writes
    ([reads]) plays no part. *)
Theorem cmd_execute_returns_child_status (m : Z) (ch : child) :
  exit_status ch = Some 42 ->
  (exists m' r, cmd_execute m ch = Some (m', r) /\
                forall c, r = Returned c -> c = 42) /\
  (0 <= m < INT_MAX -> create_ok ch = true -> wait_ok ch = true ->
   ctrl_c_hits ch = O -> cmd_execute m ch = Some (m, Returned 42)).
Proof.
  intros Hst. split.
  - unfold cmd_execute. rewrite transition_to_spawn_process_eq.
    assert (Hleave : forall m2, exists m' r,
      leave_spawn m2 (wrap_int 42) = Some (m', r) /\
      forall c, r = @Returned Z c -> c = 42).
    { intros m2. rewrite leave_spawn_eq. do 2 eexists. split; [reflexivity|].
      intros c. destruct (m2 =? INT_MIN + 1); [done|].
      destruct (m2 <? 0); [done|]. by intros [= <-]. }
    assert (Hbody : forall m1, exists m' r,
      (if negb (create_ok ch) then Some (m1, ProcessExits)
       else
         '(m2, exited) ← ctrl_c_while_blocked (ctrl_c_hits ch) m1;
         if (exited : bool) then Some (m2, ProcessExits)
         else match wait_and_close_handles ch with
              | Returned code => leave_spawn m2 (wrap_int code)
              | ProcessExits => Some (m2, ProcessExits)
              | Hangs => Some (m2, Hangs)
              end) = Some (m', r) /\
      forall c, r = @Returned Z c -> c = 42).
    { intros m1. destruct (create_ok ch); simpl; [|no_return].
      destruct (ctrl_c_while_blocked_total (ctrl_c_hits ch) m1)
        as (m2 & b & ->). simpl.
      destruct b; [no_return|].
      unfold wait_and_close_handles. rewrite Hst.
      destruct (wait_ok ch); [apply Hleave | no_return]. }
    destruct (m =? 0); simpl; [apply Hbody|].
    destruct (m <? 0); simpl; [no_return | apply Hbody].
  - intros Hm Hc Hw Hh. unfold cmd_execute.
    destruct (enter_leave m Hm) as [-> Hl]. simpl.
    rewrite Hc, Hh. simpl. unfold wait_and_close_handles. rewrite Hw, Hst.
    apply Hl.
Qed.

Lemma cmd_execute_returns_child_status_witness :
  let ch := Child true true [ReadOk (bytes "some output")] true (Some 42) 0 in
  exit_status ch = Some 42 /\ cmd_execute 0 ch = Some (0, Returned 42).
Proof.
  cbv zeta. split; [reflexivity|].
  apply (proj2 (cmd_execute_returns_child_status 0
           (Child true true [ReadOk (bytes "some output")] true (Some 42) 0)
           eq_refl));
    [vm_compute; split; [discriminate | reflexivity] | reflexivity..].
Defined.

(** ** Streaming *)

Section Streaming_facts.
Context {S : Type} (f : S -> list ascii -> S).

Lemma read_loop_pipe_of chunks st :
  forallb nonempty chunks = true ->
  read_loop f (pipe_of chunks) st = fold_left f chunks st.
Proof.
  revert st. induction chunks as [|c chunks IH]; intros st Hne; [done|].
  simpl in *. apply andb_prop in Hne as [Hc Hne].
  destruct c; [done|]. simpl. by apply IH.
Qed.

(** The whole call when nothing disturbs it. *)
Lemma cmd_execute_and_stream_data_undisturbed m ch st :
  undisturbed m ch = true ->
  cmd_execute_and_stream_data f m ch st =
  Some (m, read_loop f (reads ch) st,
        Returned (wrap_int (default 0 (exit_status ch)))).
Proof.
  unfold undisturbed. intros H.
  repeat (apply andb_prop in H as [H ?]).
  assert (Hm : 0 <= m < INT_MAX) by lia.
  unfold cmd_execute_and_stream_data.
  destruct (enter_leave m Hm) as [-> Hl]. simpl.
  assert (ctrl_c_hits ch = O) as -> by (by apply Nat.eqb_eq).
  repeat match goal with H : _ = true |- _ => rewrite H end. simpl.
  unfold wait_and_close_handles.
  repeat match goal with H : _ = true |- _ => rewrite H end.
  rewrite Hl. simpl. by destruct (exit_status ch).
Qed.
End Streaming_facts.

(** ** Lines *)

Lemma find_le c l : (find c l <= length l)%nat.
Proof. induction l as [|x l IH]; simpl; [lia|]. destruct (Ascii.eqb x c); lia. Qed.

Lemma find_end c l : find c l = length l <-> occurrences c l = O.
Proof.
  induction l as [|x l IH]; simpl; [done|].
  destruct (Ascii.eqb x c); simpl; [split; lia|].
  rewrite <- IH. split; lia.
Qed.

Lemma occurrences_app c a b :
  occurrences c (a ++ b) = (occurrences c a + occurrences c b)%nat.
Proof.
  induction a as [|x a IH]; simpl; [done|]. rewrite IH. lia.
Qed.

(** The buffer around the first [c]: what is before it holds no [c]. *)
Lemma find_split c l :
  (find c l < length l)%nat ->
  l = take (find c l) l ++ c :: drop (S (find c l)) l /\
  occurrences c (take (find c l) l) = O.
Proof.
  induction l as [|x l IH]; simpl; [lia|].
  destruct (Ascii.eqb x c) eqn:Hx; simpl.
  - apply Ascii.eqb_eq in Hx as ->. by rewrite drop_0.
  - intros Hlt. destruct IH as [IH1 IH2]; [lia|].
    rewrite Hx. simpl. split; [by rewrite <- IH1 | done].
Qed.

Lemma find_app c a b :
  occurrences c a = O -> find c (a ++ b) = (length a + find c b)%nat.
Proof.
  induction a as [|x a IH]; simpl; [done|].
  destruct (Ascii.eqb x c); simpl; [lia|]. intros H. by rewrite IH.
Qed.

Lemma split_lines_not_nil l : split_lines l <> [].
Proof.
  destruct l as [|c l]; simpl; [done|].
  destruct (Ascii.eqb c LF); [done|]. by destruct (split_lines l).
Qed.

(** A stretch without ['\n'] in front of a text joins its first line. *)
Lemma split_lines_app_no_LF a r :
  occurrences LF a = O ->
  split_lines (a ++ r) =
  match split_lines r with
  | [] => [a]
  | x :: xs => (a ++ x) :: xs
  end.
Proof.
  pose proof (split_lines_not_nil r) as Hr.
  induction a as [|c a IH]; simpl.
  - intros _. by destruct (split_lines r).
  - destruct (Ascii.eqb c LF); simpl; [lia|]. intros H.
    rewrite IH by done. by destruct (split_lines r).
Qed.

Lemma split_lines_LF a r :
  occurrences LF a = O -> split_lines (a ++ LF :: r) = a :: split_lines r.
Proof.
  intros H. rewrite split_lines_app_no_LF by done. simpl.
  by rewrite app_nil_r.
Qed.

Lemma split_lines_no_LF a : occurrences LF a = O -> split_lines a = [a].
Proof.
  intros H. rewrite <- (app_nil_r a) at 1.
  rewrite split_lines_app_no_LF by done. simpl. by rewrite app_nil_r.
Qed.

Lemma length_split_lines l :
  length (split_lines l) = Datatypes.S (occurrences LF l).
Proof.
  induction l as [|c l IH]; simpl; [done|].
  destruct (Ascii.eqb c LF); simpl; [by rewrite IH|].
  pose proof (split_lines_not_nil l).
  destruct (split_lines l); [done|]. simpl in *. lia.
Qed.

Lemma unlines_cons l ls : ls <> [] -> unlines (l :: ls) = l ++ LF :: unlines ls.
Proof. by destruct ls. Qed.

Lemma unlines_split_lines l : unlines (split_lines l) = l.
Proof.
  induction l as [|c l IH]; [done|]. cbn [split_lines].
  pose proof (split_lines_not_nil l) as Hne.
  destruct (Ascii.eqb c LF) eqn:Hc.
  - apply Ascii.eqb_eq in Hc as ->.
    rewrite unlines_cons by done. by rewrite IH.
  - destruct (split_lines l) as [|x xs] eqn:Hs; [done|].
    destruct xs as [|y ys].
    + simpl in *. by rewrite IH.
    + rewrite unlines_cons by done. rewrite unlines_cons in IH by done.
      rewrite <- IH. done.
Qed.

(** The [while] loop started at the first ['\n'] of [buf] hands over the
    lines that end in [buf] and keeps the unfinished one. *)
Lemma emit_lines_split fuel buf cbs :
  (length buf <= fuel)%nat ->
  exists ls buf',
    emit_lines fuel (find LF buf) buf cbs = Some (buf', cbs ++ ls) /\
    occurrences LF buf' = O /\
    forall rest, split_lines (buf ++ rest) = ls ++ split_lines (buf' ++ rest).
Proof.
  revert buf cbs. induction fuel as [|fuel IH]; intros buf cbs Hlen.
  - destruct buf; [|simpl in Hlen; lia]. exists [], []. by rewrite app_nil_r.
  - cbn [emit_lines]. destruct (find LF buf =? length buf)%nat eqn:Hend.
    + apply Nat.eqb_eq in Hend. exists [], buf. rewrite app_nil_r.
      split; [done|]. split; [by apply find_end | done].
    + apply Nat.eqb_neq in Hend. pose proof (find_le LF buf) as Hle.
      destruct (find_split LF buf) as [Hbuf Hno]; [lia|].
      set (s := take (find LF buf) buf) in *.
      set (d := drop (Datatypes.S (find LF buf)) buf) in *.
      destruct (IH d (cbs ++ [s])) as (ls & buf' & He & Hb & Hs).
      { assert (length buf = length s + Datatypes.S (length d))%nat.
        { rewrite Hbuf at 1. rewrite length_app. done. }
        lia. }
      exists (s :: ls), buf'. rewrite He, <- app_assoc. split; [done|].
      split; [done|]. intros rest. rewrite Hbuf at 1.
      rewrite <- app_assoc. cbn [app]. rewrite split_lines_LF by done.
      by rewrite Hs.
Qed.

(** One call of the lambda. *)
Lemma lines_data_cb_split buf cbs sv :
  occurrences LF buf = O ->
  exists ls buf',
    lines_data_cb (Some (buf, cbs)) sv = Some (buf', cbs ++ ls) /\
    occurrences LF buf' = O /\
    forall rest,
      split_lines (buf ++ sv ++ rest) = ls ++ split_lines (buf' ++ rest).
Proof.
  intros Hno. unfold lines_data_cb. cbn [mbind option_bind].
  rewrite drop_app_length.
  replace (length buf + find LF sv)%nat with (find LF (buf ++ sv))
    by (by apply find_app).
  destruct (emit_lines_split (length (buf ++ sv)) (buf ++ sv) cbs)
    as (ls & buf' & He & Hb & Hs); [done|].
  exists ls, buf'. split; [done|]. split; [done|].
  intros rest. rewrite app_assoc. apply Hs.
Qed.

(** All calls of the lambda: [per_line_cb] has seen the finished lines of
    the output so far, [buf] is the unfinished one. *)
Lemma lines_data_cb_fold chunks buf cbs :
  occurrences LF buf = O ->
  exists ls buf',
    fold_left lines_data_cb chunks (Some (buf, cbs)) = Some (buf', cbs ++ ls) /\
    occurrences LF buf' = O /\
    split_lines (buf ++ concat chunks) = ls ++ [buf'].
Proof.
  revert buf cbs. induction chunks as [|sv chunks IH]; intros buf cbs Hno.
  - exists [], buf. rewrite !app_nil_r. split; [done|]. split; [done|].
    by apply split_lines_no_LF.
  - cbn [fold_left concat].
    destruct (lines_data_cb_split buf cbs sv Hno) as (ls1 & buf1 & -> & Hb1 & Hs1).
    destruct (IH buf1 (cbs ++ ls1) Hb1) as (ls2 & buf2 & -> & Hb2 & Hs2).
    exists (ls1 ++ ls2), buf2. rewrite <- !app_assoc. split; [done|].
    split; [done|]. by rewrite Hs1, Hs2.
Qed.

(** [cmd_execute_and_stream_lines] calls [per_line_cb] with the lines of
    the output, in order. *)
Lemma cmd_execute_and_stream_lines_split m ch chunks :
  undisturbed m ch = true ->
  reads ch = pipe_of chunks ->
  forallb nonempty chunks = true ->
  cmd_execute_and_stream_lines m ch =
  Some (m, split_lines (concat chunks),
        Returned (wrap_int (default 0 (exit_status ch)))).
Proof.
  intros Hu Hr Hne. unfold cmd_execute_and_stream_lines.
  rewrite cmd_execute_and_stream_data_undisturbed by done.
  rewrite Hr, read_loop_pipe_of by done. cbn [mbind option_bind].
  destruct (lines_data_cb_fold chunks [] []) as (ls & buf & -> & _ & Hs);
    [done|].
  cbn [mbind option_bind app]. simpl in Hs. by rewrite Hs.
Qed.

(** C3. When the child's combined output is read chunk by chunk to its
    end (and the call is not cut short by a Ctrl-C or a failed system
    call), [cmd_execute_and_stream_lines] returns, and for an output with
    [N] bytes ['\n'] it has called [per_line_cb] exactly [N + 1] times;
    the arguments of these calls, joined again with ['\n'], are the
    output. *)
Theorem stream_lines_count_and_roundtrip (m : Z) (ch : child)
    (chunks : list (list ascii)) :
  undisturbed m ch = true ->
  reads ch = pipe_of chunks ->
  forallb nonempty chunks = true ->
  exists lines rc,
    cmd_execute_and_stream_lines m ch = Some (m, lines, Returned rc) /\
    length lines = Datatypes.S (occurrences LF (concat chunks)) /\
    unlines lines = concat chunks.
Proof.
  intros Hu Hr Hne. do 2 eexists. split.
  - by apply cmd_execute_and_stream_lines_split.
  - split; [apply length_split_lines | apply unlines_split_lines].
Qed.

Lemma stream_lines_count_and_roundtrip_witness :
  let chunks := [bytes "hel"; bytes "lo" ++ [LF] ++ bytes "wor"; bytes "ld"] in
  let ch := Child true true (pipe_of chunks) true (Some 0) 0 in
  exists lines rc,
    cmd_execute_and_stream_lines 0 ch = Some (0, lines, Returned rc) /\
    length lines = 2%nat /\
    unlines lines = bytes "hello" ++ [LF] ++ bytes "world".
Proof.
  exact (stream_lines_count_and_roundtrip 0
           (Child true true
              (pipe_of [bytes "hel"; bytes "lo" ++ [LF] ++ bytes "wor"; bytes "ld"])
              true (Some 0) 0)
           [bytes "hel"; bytes "lo" ++ [LF] ++ bytes "wor"; bytes "ld"]
           eq_refl eq_refl eq_refl).
Defined.

(** C9. [cmd_execute_and_stream_lines] cuts at ['\n'] and drops only that
    byte: for an output whose lines end in ["\r\n"], every line handed to
    [per_line_cb] still ends in ['\r']; what follows the last terminator
    is handed over as it is. *)
Theorem stream_lines_keeps_carriage_return (m : Z) (ch : child)
    (chunks ls : list (list ascii)) (final : list ascii) :
  undisturbed m ch = true ->
  reads ch = pipe_of chunks ->
  forallb nonempty chunks = true ->
  concat chunks = concat (map (fun l => l ++ [CR; LF]) ls) ++ final ->
  forallb (fun l => (occurrences LF l =? 0)%nat) (final :: ls) = true ->
  exists rc,
    cmd_execute_and_stream_lines m ch =
    Some (m, map (fun l => l ++ [CR]) ls ++ [final], Returned rc).
Proof.
  intros Hu Hr Hne Hout Hls. eexists.
  rewrite (cmd_execute_and_stream_lines_split m ch chunks) by done.
  do 3 f_equal. rewrite Hout. clear - Hls.
  cbn [forallb] in Hls. apply andb_prop in Hls as [Hf Hls].
  apply Nat.eqb_eq in Hf.
  induction ls as [|l ls IH]; cbn [map concat app].
  - by apply split_lines_no_LF.
  - cbn [forallb] in Hls. apply andb_prop in Hls as [Hl Hls].
    apply Nat.eqb_eq in Hl.
    replace ((l ++ [CR; LF]) ++ concat (map (fun l => l ++ [CR; LF]) ls))
      with ((l ++ [CR]) ++ LF :: concat (map (fun l => l ++ [CR; LF]) ls))
      by (by rewrite <- !app_assoc).
    rewrite <- app_assoc. cbn [app]. rewrite split_lines_LF.
    + by rewrite IH.
    + rewrite occurrences_app, Hl. reflexivity.
Qed.

Lemma stream_lines_keeps_carriage_return_witness :
  let chunks := [bytes "one" ++ [CR]; [LF] ++ bytes "two" ++ [CR; LF] ++ bytes "x"] in
  let ch := Child true true (pipe_of chunks) true (Some 0) 0 in
  exists rc,
    cmd_execute_and_stream_lines 0 ch =
    Some (0, [bytes "one" ++ [CR]; bytes "two" ++ [CR]; bytes "x"], Returned rc).
Proof.
  exact (stream_lines_keeps_carriage_return 0
           (Child true true
              (pipe_of [bytes "one" ++ [CR];
                        [LF] ++ bytes "two" ++ [CR; LF] ++ bytes "x"])
              true (Some 0) 0)
           [bytes "one" ++ [CR]; [LF] ++ bytes "two" ++ [CR; LF] ++ bytes "x"]
           [bytes "one"; bytes "two"] (bytes "x")
           eq_refl eq_refl eq_refl eq_refl eq_refl).
Defined.

(** ** Read errors *)

(** The [ReadFile] loop stops at the first failed read, whatever the
    error, and keeps what the callback has received. *)
Lemma read_loop_stops_at_failure {S : Type} (f : S -> list ascii -> S)
    chunks err rest st :
  forallb nonempty chunks = true ->
  read_loop f (pipe_of chunks ++ ReadFailed err :: rest) st
  = fold_left f chunks st.
Proof.
  revert st. induction chunks as [|c chunks IH]; intros st Hne; [done|].
  simpl in *. apply andb_prop in Hne as [Hc Hne].
  destruct c; [done|]. simpl. by apply IH.
Qed.

(** C7 at a failing input.  The child writes ["abc"], the next [ReadFile]
    fails with an I/O error, the child then ends with status [0].  The
    [_WIN32] branch hands ["abc"] to the callback, takes the failure for
    the end of the stream and returns the child's exit code [0]; the
    [popen] branch returns [1] in the same situation. *)
Theorem read_error_returns_child_exit_code :
  let append := fun (out sv : list ascii) => out ++ sv in
  cmd_execute_and_stream_data append 0
    (Child true true
       [ReadOk (bytes "abc"); ReadFailed ERROR_OPERATION_ABORTED;
        ReadOk (bytes "def")]
       true (Some 0) 0) []
  = Some (0, bytes "abc", Returned 0) /\
  cmd_execute_and_stream_data_posix append
    (PosixChild true [bytes "abc"] false 0) []
  = (bytes "abc", 1).
Proof. split; vm_compute; reflexivity. Qed.

(** Whatever the error and wherever it strikes, the [_WIN32] branch
    returns what [GetExitCodeProcess] stored. *)
Lemma read_error_exit_code_windows {S : Type} (f : S -> list ascii -> S)
    m ch chunks err rest st :
  undisturbed m ch = true ->
  reads ch = pipe_of chunks ++ ReadFailed err :: rest ->
  forallb nonempty chunks = true ->
  cmd_execute_and_stream_data f m ch st =
  Some (m, fold_left f chunks st,
        Returned (wrap_int (default 0 (exit_status ch)))).
Proof.
  intros Hu Hr Hne. rewrite cmd_execute_and_stream_data_undisturbed by done.
  by rewrite Hr, read_loop_stops_at_failure.
Qed.

(** ** Environment-diff extraction *)

Lemma is_prefix_spec p l : is_prefix p l = true <-> take (length p) l = p.
Proof.
  revert l. induction p as [|a p IH]; intros [|b l]; simpl; try done.
  rewrite andb_true_iff, Ascii.eqb_eq, IH. split.
  - by intros [-> ->].
  - intros [= -> Hp]. by rewrite Hp.
Qed.

Lemma is_prefix_app p r : is_prefix p (p ++ r) = true.
Proof. apply is_prefix_spec. by rewrite take_app_length. Qed.

(** No proper end of the sentinel line is a beginning of it: its last
    byte is the only ['\n'] in it. *)
Lemma sentinel_LF_last j :
  sentinel !! j = Some LF -> j = 21%nat.
Proof.
  intros H. do 22 (destruct j as [|j]; [by (vm_compute in H; try discriminate)|]).
  vm_compute in H. discriminate.
Qed.

Lemma sentinel_no_overlap r x :
  r <> [] ->
  is_prefix sentinel (r ++ sentinel ++ x) = true ->
  is_prefix sentinel r = true.
Proof.
  intros Hr Hp. apply is_prefix_spec in Hp. apply is_prefix_spec.
  change (length sentinel) with 22%nat in *.
  destruct (decide (22 <= length r)%nat) as [Hge|Hlt].
  - by rewrite take_app_le in Hp.
  - exfalso.
    assert (H21 : (r ++ sentinel ++ x) !! 21%nat = Some LF).
    { rewrite <- (lookup_take_lt _ 22) by lia. rewrite Hp. reflexivity. }
    rewrite lookup_app_r in H21 by lia.
    rewrite lookup_app_l in H21 by (change (length sentinel) with 22%nat; lia).
    apply sentinel_LF_last in H21. destruct r; [done|]. simpl in *. lia.
Qed.

Lemma search_here haystack needle :
  is_prefix needle haystack = true -> search haystack needle = O.
Proof. intros H. destruct haystack; simpl; by rewrite H. Qed.

(** The search stops at the first sentinel line. *)
Lemma search_first_sentinel pre x :
  search pre sentinel = length pre ->
  search (pre ++ sentinel ++ x) sentinel = length pre.
Proof.
  induction pre as [|c pre IH]; intros Hpre.
  - change ([] ++ sentinel ++ x) with (sentinel ++ x).
    apply search_here, is_prefix_app.
  - cbn [app length search] in *.
    destruct (is_prefix sentinel (c :: pre)) eqn:Hc; [done|].
    destruct (is_prefix sentinel (c :: pre ++ sentinel ++ x)) eqn:Hc'.
    + apply (sentinel_no_overlap (c :: pre) x) in Hc'; [congruence|done].
    + f_equal. apply IH. lia.
Qed.

Lemma find_first c a b :
  occurrences c a = O -> find c (a ++ c :: b) = length a.
Proof.
  intros H. rewrite find_app by done. simpl. rewrite Ascii.eqb_refl. lia.
Qed.

Lemma drop_after (c : ascii) a b :
  drop (Datatypes.S (length a)) (a ++ c :: b) = b.
Proof.
  change (a ++ c :: b) with (a ++ [c] ++ b). rewrite app_assoc.
  apply drop_app_length'. rewrite length_app. simpl. lia.
Qed.

(** The loop takes one well-formed line and goes on with the rest. *)
Lemma parse_set_output_line fuel e rest :
  well_formed e = true ->
  parse_set_output (Datatypes.S fuel) (set_line e ++ rest)
  = cons e <$> parse_set_output fuel rest.
Proof.
  destruct e as [name value]. unfold well_formed, set_line. cbn [fst snd].
  intros H. apply andb_prop in H as [Hn Hv].
  apply Nat.eqb_eq in Hn, Hv.
  cbn [parse_set_output].
  replace ((name ++ "="%char :: value ++ [CR; LF]) ++ rest)
    with (name ++ "="%char :: (value ++ CR :: LF :: rest))
    by (by rewrite <- !app_assoc; cbn [app]; rewrite <- app_assoc).
  rewrite find_first by done.
  rewrite length_app. cbn [length].
  destruct (length name =? length name + Datatypes.S (length (value ++ CR :: LF :: rest)))%nat eqn:E;
    [apply Nat.eqb_eq in E; lia|].
  rewrite take_app_length, drop_after, find_first by done.
  rewrite length_app. cbn [length].
  destruct (length value =? length value + Datatypes.S (Datatypes.S (length rest)))%nat eqn:E';
    [apply Nat.eqb_eq in E'; lia|].
  rewrite take_app_length, drop_after. cbn. done.
Qed.

(** The loop ends at a text without ['='], and at a text whose first ['=']
    has no ['\r'] after it. *)
Lemma parse_set_output_no_eq fuel t :
  occurrences "="%char t = O -> parse_set_output fuel t = Some [].
Proof.
  intros H. apply find_end in H.
  destruct fuel; cbn [parse_set_output]; rewrite H, Nat.eqb_refl; done.
Qed.

Lemma parse_set_output_no_CR fuel name value :
  occurrences "="%char name = O -> occurrences CR value = O ->
  parse_set_output fuel (name ++ "="%char :: value) = Some [].
Proof.
  intros Hn Hv. apply find_end in Hv.
  destruct fuel; cbn [parse_set_output];
    rewrite find_first by done; rewrite length_app; cbn [length];
    (destruct (length name =? length name + Datatypes.S (length value))%nat eqn:E;
       [done|]);
    rewrite drop_after, Hv, Nat.eqb_refl; done.
Qed.

Lemma parse_set_output_lines fuel ps t :
  forallb well_formed ps = true ->
  (forall fuel', parse_set_output fuel' t = Some []) ->
  (length ps <= fuel)%nat ->
  parse_set_output fuel (set_lines ps ++ t) = Some ps.
Proof.
  intros Hps Ht. revert fuel. induction ps as [|e ps IH]; intros fuel Hfuel.
  - apply Ht.
  - cbn [forallb] in Hps. apply andb_prop in Hps as [He Hps].
    destruct fuel as [|fuel]; [simpl in Hfuel; lia|].
    unfold set_lines. cbn [map concat]. rewrite <- app_assoc.
    rewrite parse_set_output_line by done.
    fold (set_lines ps). rewrite IH; [done | done | simpl in Hfuel; lia].
Qed.

Lemma length_set_lines ps t : (length ps <= length (set_lines ps ++ t))%nat.
Proof.
  induction ps as [|e ps IH]; simpl; [lia|].
  unfold set_lines in *. cbn [map concat]. rewrite <- app_assoc, length_app.
  assert (1 <= length (set_line e))%nat.
  { unfold set_line. rewrite length_app. cbn [length]. lia. }
  lia.
Qed.

Lemma fold_left_append (chunks : list (list ascii)) acc :
  fold_left (fun out sv => out ++ sv) chunks acc = acc ++ concat chunks.
Proof.
  revert acc. induction chunks as [|c chunks IH]; intros acc; simpl.
  - by rewrite app_nil_r.
  - by rewrite IH, app_assoc.
Qed.

(** [cmd_execute_and_capture_output] returns the whole output. *)
Lemma cmd_execute_and_capture_output_undisturbed m ch chunks :
  undisturbed m ch = true ->
  reads ch = pipe_of chunks ->
  forallb nonempty chunks = true ->
  cmd_execute_and_capture_output m ch =
  Some (m, Returned {| exit_code := wrap_int (default 0 (exit_status ch));
                       output := concat chunks |}).
Proof.
  intros Hu Hr Hne. unfold cmd_execute_and_capture_output.
  rewrite cmd_execute_and_stream_data_undisturbed by done.
  rewrite Hr, read_loop_pipe_of, fold_left_append by done. done.
Qed.

(** With exit code [0] and the first sentinel line at the end of [pre],
    the loop runs on what follows that line. *)
Lemma cmd_execute_modify_env_pairs_body m ch chunks pre body :
  undisturbed m ch = true ->
  reads ch = pipe_of chunks ->
  forallb nonempty chunks = true ->
  exit_status ch = Some 0 ->
  concat chunks = pre ++ sentinel ++ body ->
  search pre sentinel = length pre ->
  cmd_execute_modify_env_pairs m ch =
  es ← parse_set_output (length body) body; Some (m, Returned es).
Proof.
  intros Hu Hr Hne Hst Hout Hpre. unfold cmd_execute_modify_env_pairs.
  rewrite (cmd_execute_and_capture_output_undisturbed m ch chunks) by done.
  rewrite Hst, Hout. cbn [mbind option_bind exit_code output default].
  change (wrap_int 0 =? 0) with true. cbn [negb].
  fold sentinel. rewrite search_first_sentinel by done.
  rewrite !length_app.
  destruct (length pre =? length pre + (length sentinel + length body))%nat eqn:E.
  { apply Nat.eqb_eq in E. change (length sentinel) with 22%nat in E. lia. }
  replace (drop (length pre + length magic_string + 2) (pre ++ sentinel ++ body))
    with body; [done|].
  rewrite app_assoc. symmetry. apply drop_app_length'.
  rewrite length_app. change (length sentinel) with 22%nat.
  change (length magic_string) with 20%nat. lia.
Qed.

(** C6, as stated, fails: after [VAR1=A] and [VAR2=B] comes a line without
    ['='] and one more line; the loop looks for the next ['='] across the
    line end and adds a third pair whose name starts at the malformed
    line. *)
Lemma modify_env_reads_past_malformed_line :
  let tail := bytes "oops" ++ [CR; LF] ++ bytes "X=Y" ++ [CR; LF] in
  let out := bytes "setup" ++ [CR; LF] ++ sentinel
             ++ bytes "VAR1=A" ++ [CR; LF] ++ bytes "VAR2=B" ++ [CR; LF] ++ tail in
  let ch := Child true true (pipe_of [out]) true (Some 0) 0 in
  cmd_execute_modify_env_pairs 0 ch =
  Some (0, Returned [(bytes "VAR1", bytes "A"); (bytes "VAR2", bytes "B");
                     (bytes "oops" ++ [CR; LF] ++ bytes "X", bytes "Y")]) /\
  cmd_execute_modify_env_pairs 0 ch <>
  Some (0, Returned [(bytes "VAR1", bytes "A"); (bytes "VAR2", bytes "B")]).
Proof. split; vm_compute; [reflexivity | discriminate]. Qed.

(** C6, amended.  The output holds the sentinel line (for the first time),
    then ["VAR1=A\r\nVAR2=B\r\n"], then a text that has no ['='] at all,
    or no ['\r'] after its first ['=']; the setup command ends with exit
    code [0].  Then the block returned holds the pairs [VAR1=A] and
    [VAR2=B] and nothing else. *)
Theorem modify_env_two_pairs (m : Z) (ch : child) (chunks : list (list ascii))
    (pre tail name value : list ascii) :
  undisturbed m ch = true ->
  reads ch = pipe_of chunks ->
  forallb nonempty chunks = true ->
  exit_status ch = Some 0 ->
  search pre sentinel = length pre ->
  concat chunks =
    pre ++ sentinel
    ++ set_lines [(bytes "VAR1", bytes "A"); (bytes "VAR2", bytes "B")] ++ tail ->
  occurrences "="%char tail = O \/
  (tail = name ++ "="%char :: value /\
   occurrences "="%char name = O /\ occurrences CR value = O) ->
  cmd_execute_modify_env_pairs m ch =
  Some (m, Returned [(bytes "VAR1", bytes "A"); (bytes "VAR2", bytes "B")]).
Proof.
  intros Hu Hr Hne Hst Hpre Hout Htail.
  rewrite (cmd_execute_modify_env_pairs_body m ch chunks pre _ Hu Hr Hne Hst Hout Hpre).
  rewrite parse_set_output_lines; [done | done | | apply length_set_lines].
  intros fuel'. destruct Htail as [H | (-> & Hn & Hv)].
  - by apply parse_set_output_no_eq.
  - by apply parse_set_output_no_CR.
Qed.

Lemma modify_env_two_pairs_witness :
  let out := bytes "setup" ++ [CR; LF] ++ sentinel
             ++ bytes "VAR1=A" ++ [CR; LF] ++ bytes "VAR2=B" ++ [CR; LF]
             ++ bytes "no more variables" ++ [CR; LF] in
  cmd_execute_modify_env_pairs 0 (Child true true (pipe_of [out]) true (Some 0) 0) =
  Some (0, Returned [(bytes "VAR1", bytes "A"); (bytes "VAR2", bytes "B")]).
Proof.
  apply (modify_env_two_pairs 0 _
           [bytes "setup" ++ [CR; LF] ++ sentinel
            ++ bytes "VAR1=A" ++ [CR; LF] ++ bytes "VAR2=B" ++ [CR; LF]
            ++ bytes "no more variables" ++ [CR; LF]]
           (bytes "setup" ++ [CR; LF])
           (bytes "no more variables" ++ [CR; LF]) [] []);
    try reflexivity.
  left. reflexivity.
Defined.

(** C10. After the sentinel line and any number of well-formed lines, a
    last [NAME=VALUE] with no ['\r'] after it is left out without notice:
    the block holds the pairs before it and nothing else. *)
Theorem modify_env_drops_unterminated_pair (m : Z) (ch : child)
    (chunks : list (list ascii)) (pre : list ascii)
    (ps : list (list ascii * list ascii)) (name value : list ascii) :
  undisturbed m ch = true ->
  reads ch = pipe_of chunks ->
  forallb nonempty chunks = true ->
  exit_status ch = Some 0 ->
  search pre sentinel = length pre ->
  forallb well_formed ps = true ->
  well_formed (name, value) = true ->
  concat chunks = pre ++ sentinel ++ set_lines ps ++ name ++ "="%char :: value ->
  cmd_execute_modify_env_pairs m ch = Some (m, Returned ps).
Proof.
  intros Hu Hr Hne Hst Hpre Hps Hnv Hout.
  rewrite (cmd_execute_modify_env_pairs_body m ch chunks pre _ Hu Hr Hne Hst Hout Hpre).
  rewrite parse_set_output_lines; [done | done | | apply length_set_lines].
  intros fuel'. unfold well_formed in Hnv. cbn [fst snd] in Hnv.
  apply andb_prop in Hnv as [Hn Hv]. apply Nat.eqb_eq in Hn, Hv.
  by apply parse_set_output_no_CR.
Qed.

Lemma modify_env_drops_unterminated_pair_witness :
  let out := bytes "setup" ++ [CR; LF] ++ sentinel
             ++ bytes "VAR1=A" ++ [CR; LF] ++ bytes "LAST=value" in
  cmd_execute_modify_env_pairs 0 (Child true true (pipe_of [out]) true (Some 0) 0) =
  Some (0, Returned [(bytes "VAR1", bytes "A")]).
Proof.
  apply (modify_env_drops_unterminated_pair 0 _
           [bytes "setup" ++ [CR; LF] ++ sentinel
            ++ bytes "VAR1=A" ++ [CR; LF] ++ bytes "LAST=value"]
           (bytes "setup" ++ [CR; LF])
           [(bytes "VAR1", bytes "A")] (bytes "LAST") (bytes "value"));
    reflexivity.
Defined.

(** ** The environment block *)

Lemma in_extra_entries items n v :
  In (n, v) (extra_entries items) <-> In (n, v) items /\ n <> "PATH"%string.
Proof.
  induction items as [|[k w] items IH]; simpl; [tauto|].
  destruct (String.eqb k "PATH") eqn:Hk; simpl; rewrite IH.
  - apply String.eqb_eq in Hk as ->. split; [tauto|].
    intros [[[= <- <-]|?] ?]; [done | tauto].
  - apply String.eqb_neq in Hk. split.
    + intros [[= -> ->]|?]; tauto.
    + tauto.
Qed.

Lemma in_map_to_list (extra_env : gmap string string) n v :
  In (n, v) (map_to_list extra_env) <-> extra_env !! n = Some v.
Proof. rewrite <- list_elem_of_In. apply elem_of_map_to_list. Qed.

Lemma in_base_entries (get_environment_variable : string -> option string)
    l n v :
  In (n, v) (base_entries get_environment_variable l) <->
  In n l /\ get_environment_variable n = Some v /\ is_empty v = false.
Proof.
  induction l as [|x l IH]; simpl; [tauto|].
  destruct (get_environment_variable x) as [w|] eqn:Hx.
  - destruct (is_empty w) eqn:Hw; simpl; rewrite IH.
    + split; [tauto|]. intros [[->|?] (? & ?)]; [congruence | tauto].
    + split.
      * intros [[= -> ->]|?]; tauto.
      * intros [[->|?] (Hv & ?)]; [left; congruence | tauto].
  - rewrite IH. split; [tauto|]. intros [[->|?] (? & ?)]; [congruence | tauto].
Qed.

(** The entries of the block, by kind. *)
Lemma in_get_environment_entries
    (get_environment_variable : string -> option string)
    (Strings_split : string -> string -> list string)
    extra_env prepend_to_path es n v :
  get_environment_entries get_environment_variable Strings_split
    extra_env prepend_to_path = Some es ->
  In (n, v) es <->
  (In n (env_wstrings get_environment_variable Strings_split) /\
   get_environment_variable n = Some v /\ is_empty v = false) \/
  (n = "Path"%string /\ exists SYSTEM_ROOT,
     get_environment_variable "SystemRoot" = Some SYSTEM_ROOT /\
     v = new_path SYSTEM_ROOT extra_env prepend_to_path) \/
  (n = "VSLANG"%string /\ v = "1033"%string) \/
  (extra_env !! n = Some v /\ n <> "PATH"%string).
Proof.
  unfold get_environment_entries.
  destruct (get_environment_variable "SystemRoot") as [root|] eqn:Hroot;
    [|done].
  intros Heq. apply (inj Some) in Heq. subst es.
  rewrite in_app_iff, in_base_entries. cbn [app In].
  rewrite in_extra_entries, in_map_to_list. split.
  - intros [H|[[= <- <-]|[[= <- <-]|H]]]; eauto 10.
  - intros [H|[(-> & r & [= <-] & ->)|[[-> ->]|H]]]; eauto 10.
Qed.

(** C4, as stated, fails: with only [SystemRoot] set and no extra
    variable, the block binds [VSLANG], which is not allow-listed, not
    supplied by the caller and not the search path. *)
Lemma block_binds_VSLANG :
  let getenv := env_of [("SystemRoot", "C:\Windows")]%string in
  (names <$> get_environment_entries getenv split_chars ∅ "")
  = Some ["SystemRoot"; "Path"; "VSLANG"]%string /\
  ~ claimed_name getenv ∅ "VSLANG".
Proof.
  split; [vm_compute; reflexivity|].
  intros [[_ (v & Hv & _)]|[[v Hv]|Hp]]; [|done|done].
  vm_compute in Hv. discriminate.
Qed.

(** C4, amended.  The names bound in the block are exactly: the names of
    [env_wstrings] (the fixed allow-list and the names listed in
    [VCPKG_KEEP_ENV_VARS]) whose value in the current process is there and
    not empty; the caller's extra variables other than [PATH] (whose value
    goes into [Path]); [Path]; and [VSLANG]. *)
Theorem block_names (get_environment_variable : string -> option string)
    (Strings_split : string -> string -> list string)
    (extra_env : gmap string string) (prepend_to_path : string)
    (es : list (string * string)) (n : string) :
  get_environment_entries get_environment_variable Strings_split
    extra_env prepend_to_path = Some es ->
  In n (names es) <->
  (In n (env_wstrings get_environment_variable Strings_split) /\
   exists v, get_environment_variable n = Some v /\ is_empty v = false) \/
  (n <> "PATH"%string /\ is_Some (extra_env !! n)) \/
  n = "Path"%string \/
  n = "VSLANG"%string.
Proof.
  intros Hes. unfold names. rewrite in_map_iff. split.
  - intros ([k v] & <- & Hin). cbn [fst].
    apply (in_get_environment_entries _ _ _ _ _ _ _ Hes) in Hin
      as [(? & ? & ?)|[(-> & _)|[(-> & _)|(? & ?)]]]; eauto 10.
  - pose proof Hes as Hes'. unfold get_environment_entries in Hes'.
    destruct (get_environment_variable "SystemRoot") as [root|] eqn:Hroot;
      [|done].
    intros [(Hn & v & Hv & He)|[(Hn & v & Hv)|[->| ->]]].
    + exists (n, v). split; [done|].
      apply (in_get_environment_entries _ _ _ _ _ _ _ Hes). eauto.
    + exists (n, v). split; [done|].
      apply (in_get_environment_entries _ _ _ _ _ _ _ Hes). eauto 10.
    + exists ("Path"%string, new_path root extra_env prepend_to_path).
      split; [done|].
      apply (in_get_environment_entries _ _ _ _ _ _ _ Hes). eauto 10.
    + exists ("VSLANG"%string, "1033"%string). split; [done|].
      apply (in_get_environment_entries _ _ _ _ _ _ _ Hes). eauto 10.
Qed.

Lemma block_names_witness :
  let getenv := env_of [("SystemRoot", "C:\Windows"); ("TEMP", "C:\T")]%string in
  let extra_env : gmap string string := {[ "FOO"%string := "bar"%string ]} in
  In "FOO"%string
     (names [("SystemRoot", "C:\Windows"); ("TEMP", "C:\T");
             ("Path", "C:\Windows\system32;C:\Windows;C:\Windows\system32\Wbem;C:\Windows\system32\WindowsPowerShell\v1.0\");
             ("VSLANG", "1033"); ("FOO", "bar")]%string) <->
  (In "FOO"%string (env_wstrings getenv split_chars) /\
   exists v, getenv "FOO"%string = Some v /\ is_empty v = false) \/
  ("FOO"%string <> "PATH"%string /\ is_Some (extra_env !! "FOO"%string)) \/
  "FOO"%string = "Path"%string \/
  "FOO"%string = "VSLANG"%string.
Proof.
  apply (block_names
           (env_of [("SystemRoot", "C:\Windows"); ("TEMP", "C:\T")]%string)
           split_chars {[ "FOO"%string := "bar"%string ]} ""%string).
  vm_compute. reflexivity.
Defined.

Lemma lookup_first_unique l n v :
  In (n, v) l -> (forall v', In (n, v') l -> v' = v) ->
  lookup_first n l = Some v.
Proof.
  induction l as [|[k w] l IH]; simpl; [done|].
  intros Hin Huniq. destruct (String.eqb k n) eqn:Hk.
  - apply String.eqb_eq in Hk as ->. f_equal. apply Huniq. by left.
  - apply String.eqb_neq in Hk. apply IH.
    + destruct Hin as [[= -> ->]|?]; done.
    + intros v' Hv'. apply Huniq. by right.
Qed.

Lemma lookup_first_app_l l l' n v :
  lookup_first n l = Some v -> lookup_first n (l ++ l') = Some v.
Proof.
  induction l as [|[k w] l IH]; simpl; [done|].
  destruct (String.eqb k n); [done | apply IH].
Qed.

(** C8, as stated, fails: with [TEMP] set in the current process and an
    extra variable [TEMP], the block binds [TEMP] twice; the entry from
    the current process stays, before the caller's. *)
Lemma extra_does_not_replace_base :
  let getenv := env_of [("SystemRoot", "C:\Windows"); ("TEMP", "C:\T")]%string in
  let extra_env : gmap string string := {[ "TEMP"%string := "X"%string ]} in
  let es := [("SystemRoot", "C:\Windows"); ("TEMP", "C:\T");
             ("Path", "C:\Windows\system32;C:\Windows;C:\Windows\system32\Wbem;C:\Windows\system32\WindowsPowerShell\v1.0\");
             ("VSLANG", "1033"); ("TEMP", "X")]%string in
  get_environment_entries getenv split_chars extra_env "" = Some es /\
  In "TEMP"%string allow_list /\
  ~ replaces es "TEMP" "X" /\
  lookup_first "TEMP" es = Some "C:\T"%string.
Proof.
  cbv zeta. split; [vm_compute; reflexivity|].
  split; [vm_compute; tauto|]. split; [|reflexivity].
  intros H. specialize (H "C:\T"%string). simpl in H.
  assert ("C:\T"%string = "X"%string) by (apply H; tauto). discriminate.
Qed.

(** C8, amended.  An extra variable whose name is not [PATH] is bound in
    the block to the caller's value, and that entry is the last one of
    its name.  A variable of the same name that is allow-listed and not
    empty in the current process is not replaced: its entry stays and is
    the first one of that name.  When no other entry has the name, the
    caller's value is the only one bound to it. *)
Theorem extra_variable_appended
    (get_environment_variable : string -> option string)
    (Strings_split : string -> string -> list string)
    (extra_env : gmap string string) (prepend_to_path : string)
    (es : list (string * string)) (n v : string) :
  get_environment_entries get_environment_variable Strings_split
    extra_env prepend_to_path = Some es ->
  extra_env !! n = Some v ->
  n <> "PATH"%string ->
  In (n, v) es /\
  lookup_last n es = Some v /\
  (forall b, In n (env_wstrings get_environment_variable Strings_split) ->
             get_environment_variable n = Some b -> is_empty b = false ->
             In (n, b) es /\ lookup_first n es = Some b) /\
  ((forall b, In n (env_wstrings get_environment_variable Strings_split) ->
              get_environment_variable n = Some b -> is_empty b = true) ->
   n <> "Path"%string -> n <> "VSLANG"%string -> replaces es n v).
Proof.
  intros Hes Hn Hne.
  pose proof (fun v' => in_get_environment_entries _ _ _ _ _ n v' Hes) as Hin.
  split; [apply Hin; eauto 10|]. split; [|split].
  - unfold get_environment_entries in Hes.
    destruct (get_environment_variable "SystemRoot") as [root|]; [|done].
    apply (inj Some) in Hes. subst es. unfold lookup_last.
    rewrite !rev_app_distr.
    do 2 apply lookup_first_app_l. apply lookup_first_unique.
    + rewrite <- in_rev.
      apply in_extra_entries. split; [|done].
      by apply in_map_to_list.
    + intros v' Hv'. rewrite <- in_rev in Hv'.
      apply in_extra_entries in Hv' as [Hv' _].
      apply in_map_to_list in Hv'. congruence.
  - intros b Hb Hgb Hbe. split; [apply Hin; eauto 10|].
    unfold get_environment_entries in Hes.
    destruct (get_environment_variable "SystemRoot") as [root|]; [|done].
    apply (inj Some) in Hes. subst es.
    apply lookup_first_app_l, lookup_first_unique.
    + by apply in_base_entries.
    + intros v' Hv'. apply in_base_entries in Hv' as (_ & Hv' & _).
      congruence.
  - intros Hbase HnP HnV v' Hv'. apply Hin in Hv'
      as [(Hb & Hgb & Hbe)|[(-> & _)|[(-> & _)|(Hv' & _)]]];
      [|done|done|congruence].
    specialize (Hbase v' Hb Hgb). congruence.
Qed.

Lemma extra_variable_appended_witness :
  let es := [("SystemRoot", "C:\Windows"); ("TEMP", "C:\T");
             ("Path", "C:\Windows\system32;C:\Windows;C:\Windows\system32\Wbem;C:\Windows\system32\WindowsPowerShell\v1.0\");
             ("VSLANG", "1033"); ("TEMP", "X")]%string in
  In ("TEMP", "X")%string es /\ lookup_last "TEMP" es = Some "X"%string.
Proof.
  cbv zeta.
  pose proof (extra_variable_appended
           (env_of [("SystemRoot", "C:\Windows"); ("TEMP", "C:\T")]%string)
           split_chars {[ "TEMP"%string := "X"%string ]} ""%string
           [("SystemRoot", "C:\Windows"); ("TEMP", "C:\T");
             ("Path", "C:\Windows\system32;C:\Windows;C:\Windows\system32\Wbem;C:\Windows\system32\WindowsPowerShell\v1.0\");
             ("VSLANG", "1033"); ("TEMP", "X")]%string "TEMP" "X"
           eq_refl eq_refl) as H.
  destruct H as (H1 & H2 & _); [discriminate|]. split; assumption.
Defined.

(** ** The block as a string *)

Lemma block_entries_NUL x block :
  occurrences NUL x = O ->
  block_entries (x ++ NUL :: block) = x :: block_entries block.
Proof.
  induction x as [|c x IH]; simpl; [done|].
  destruct (Ascii.eqb c NUL); simpl; [lia|]. intros H. by rewrite IH.
Qed.

(** The entries are what one reads back from the rendered block. *)
Lemma block_entries_render es :
  forallb readable es = true ->
  map entry_pair (block_entries (m_env_data (render es)))
  = map (fun e => (bytes e.1, bytes e.2)) es.
Proof.
  induction es as [|[n v] es IH]; [done|]. cbn [forallb].
  intros H. apply andb_prop in H as [He Hes].
  unfold readable in He. cbn [fst snd] in He.
  apply andb_prop in He as [He Heq]. apply andb_prop in He as [Hn Hv].
  apply Nat.eqb_eq in Hn, Hv, Heq.
  cbn [render m_env_data map concat]. unfold render_entry at 1.
  cbn [fst snd]. fold (bytes n). fold (bytes v).
  replace ((bytes n ++ ["="%char] ++ bytes v ++ [NUL])
           ++ concat (map render_entry es))
    with ((bytes n ++ "="%char :: bytes v)
          ++ NUL :: concat (map render_entry es)).
  2:{ rewrite <- !app_assoc. reflexivity. }
  rewrite block_entries_NUL.
  2:{ rewrite occurrences_app. cbn [occurrences]. rewrite Hn, Hv. reflexivity. }
  cbn [map]. f_equal; [|by apply IH].
  unfold entry_pair. rewrite find_first by done.
  by rewrite take_app_length, drop_after.
Qed.

(** ** Lines and captured output of the same child *)

Lemma read_loop_delivered {S : Type} (f : S -> list ascii -> S) pipe st :
  read_loop f pipe st = fold_left f (delivered pipe) st.
Proof.
  revert st. induction pipe as [|[bytes|err] pipe IH]; intros st; simpl;
    [done| |done].
  destruct (0 <? length bytes)%nat; [apply IH | done].
Qed.

(** Whether and how [cmd_execute_and_stream_data] returns does not depend
    on the callback. *)
Lemma cmd_execute_and_stream_data_returned {S T : Type}
    (f : S -> list ascii -> S) (g : T -> list ascii -> T) m ch st t m' st' rc :
  cmd_execute_and_stream_data f m ch st = Some (m', st', Returned rc) ->
  st' = read_loop f (reads ch) st /\
  cmd_execute_and_stream_data g m ch t
  = Some (m', read_loop g (reads ch) t, Returned rc).
Proof.
  unfold cmd_execute_and_stream_data, wait_and_stream_output.
  rewrite transition_to_spawn_process_eq.
  destruct (if m =? 0 then (wrap_int 1, Returns)
            else if m <? 0 then (m, SleepsForever)
            else (wrap_int (m + 1), Returns)) as [m1 o1].
  cbn [mbind option_bind].
  destruct o1; [|done..].
  destruct (negb (pipes_ok ch && create_ok ch)); [done|].
  destruct (ctrl_c_while_blocked (ctrl_c_hits ch) m1) as [[m2 exited]|];
    [|done].
  cbn [mbind option_bind]. destruct exited; [done|].
  destruct (wait_and_close_handles ch) as [code| |]; [|done..].
  rewrite !leave_spawn_eq. cbn [mbind option_bind].
  destruct (m2 =? INT_MIN + 1); [done|]. destruct (m2 <? 0); [done|].
  intros [= <- <- <-]. done.
Qed.

(** Whenever capturing the output of a child gives [out], streaming its
    lines calls [per_line_cb] with the lines of [out], whatever the reads
    were. *)
Lemma stream_lines_of_captured_output m ch m' rc out :
  cmd_execute_and_capture_output m ch
  = Some (m', Returned {| exit_code := rc; output := out |}) ->
  cmd_execute_and_stream_lines m ch
  = Some (m', split_lines out, Returned rc).
Proof.
  unfold cmd_execute_and_capture_output, cmd_execute_and_stream_lines.
  destruct (cmd_execute_and_stream_data (fun out sv => out ++ sv) m ch [])
    as [[[m1 out1] r1]|] eqn:Hcap; [|done].
  cbn [mbind option_bind]. destruct r1 as [rc1| |]; [|done..].
  intros [= <- <- <-].
  destruct (cmd_execute_and_stream_data_returned _ lines_data_cb
              _ _ _ (Some ([], [])) _ _ _ Hcap) as [-> ->].
  cbn [mbind option_bind]. rewrite !read_loop_delivered, fold_left_append.
  destruct (lines_data_cb_fold (delivered (reads ch)) [] [])
    as (ls & buf & -> & _ & Hs); [done|].
  cbn [mbind option_bind app] in *. by rewrite Hs.
Qed.

(** ** Further checks on concrete runs *)

(** A child that writes ["hello\nworld"]: the captured output is that
    text, and [per_line_cb] is called with ["hello"], then ["world"]. *)
Example capture_and_lines_hello_world :
  let ch := Child true true
              (pipe_of [bytes "hello" ++ [LF] ++ bytes "world"])
              true (Some 0) 0 in
  cmd_execute_and_capture_output 0 ch
  = Some (0, Returned {| exit_code := 0;
                         output := bytes "hello" ++ [LF] ++ bytes "world" |}) /\
  cmd_execute_and_stream_lines 0 ch
  = Some (0, [bytes "hello"; bytes "world"], Returned 0).
Proof. split; vm_compute; reflexivity. Qed.

(** A child without output still gives one, empty, line. *)
Example lines_of_no_output :
  cmd_execute_and_stream_lines 0 (Child true true [] true (Some 0) 0)
  = Some (0, [[]], Returned 0).
Proof. vm_compute. reflexivity. Qed.

(** [cmd_execute_modify_env] leaves the process when the setup command
    ends with a code other than [0], and when the sentinel line is not in
    the output. *)
Example modify_env_fails_loudly :
  cmd_execute_modify_env 0
    (Child true true
       (pipe_of [sentinel ++ bytes "VAR1=A" ++ [CR; LF]]) true (Some 1) 0)
  = Some (0, ProcessExits) /\
  cmd_execute_modify_env 0
    (Child true true
       (pipe_of [magic_string ++ bytes " VAR1=A" ++ [CR; LF]]) true (Some 0) 0)
  = Some (0, ProcessExits).
Proof. split; vm_compute; reflexivity. Qed.

(** A Ctrl-C handled while [cmd_execute] is blocked on its child: the
    call does not return, the process exits once the child is waited
    on. *)
Example cmd_execute_after_ctrl_c :
  cmd_execute 0 (Child true true [] true (Some 42) 1)
  = Some (INT_MIN, ProcessExits).
Proof. vm_compute. reflexivity. Qed.

(* ===================================================================== *)
(** * Part III: further properties of the code                            *)
(* ===================================================================== *)

(** ** The coordinator *)

Lemma counting_init n : counting n (init n).
Proof.
  unfold counting, init; simpl. split; [apply length_replicate|]. split.
  - apply Forall_replicate. exact I.
  - by rewrite count_replicate.
Qed.

Lemma counting_step n s i :
  Z.of_nat n <= INT_MAX -> counting n s -> counting n (sys_step s (i, CallSpawn)).
Proof.
  intros Hn (Hlen & Hw & Hc). unfold sys_step. cbn [fst snd].
  destruct (threads s !! i) as [p|] eqn:Hp; [|by repeat split].
  pose proof (Forall_lookup_1 _ _ _ _ Hw Hp) as Hwp.
  pose proof (count_lt_length is_outstanding _ _ _ Hp) as Hlt.
  pose proof (count_pos is_outstanding _ _ _ Hp) as Hpos.
  rewrite Hlen in Hlt, Hpos. rewrite INT_MAX_val in Hn.
  destruct (thread_step CallSpawn (counter s) p) as [m' p'] eqn:Hstep.
  assert (Hgoal : worker_pc p' /\
    m' = count is_outstanding (threads s) - b2z (is_outstanding p)
         + b2z (is_outstanding p')).
  { pose proof (count_nonneg is_outstanding (threads s)) as Hk0.
    revert Hk0 Hc Hstep Hlt Hpos.
    generalize (count is_outstanding (threads s)) (counter s).
    clear - Hn Hwp. intros k m Hk0 Hc Hstep Hlt Hpos.
    destruct p; simpl in *; unfold compare_exchange_strong, fetch_add in *;
      repeat match goal with
             | H : context [if ?b then _ else _] |- _ => destruct b eqn:?
             end;
      simplify_eq/=;
      try (specialize (Hlt eq_refl)); try (specialize (Hpos eq_refl));
      rewrite ?INT_MIN_val in *;
      try (rewrite wrap_int_id by (rewrite INT_MIN_val, INT_MAX_val; lia));
      try done; lia. }
  destruct Hgoal as [Hp' Hm']. unfold counting. cbn [threads counter].
  split; [by rewrite length_insert|]. split; [by apply Forall_insert|].
  by rewrite (count_insert _ _ _ _ _ Hp).
Qed.

Lemma worker_pc_counts l :
  Forall worker_pc l -> count is_sleeping l = 0 /\ count is_exiting l = 0.
Proof.
  induction 1 as [|p l Hp _ [IH1 IH2]]; [done|].
  rewrite !count_cons, IH1, IH2. by destruct p.
Qed.

(** X1. As long as no Ctrl-C is taken the coordinator is a plain
    reference count: under every schedule of worker steps the counter is
    the number of threads between [transition_to_spawn_process] and
    [transition_from_spawn_process], and no thread sleeps or exits. *)
Theorem reference_count_without_ctrl_c (n : nat) (sched : list (nat * call)) :
  Z.of_nat n <= INT_MAX ->
  no_ctrl_c sched = true ->
  let s := run sched (init n) in
  counter s = count is_outstanding (threads s) /\
  count is_sleeping (threads s) = 0 /\
  count is_exiting (threads s) = 0.
Proof.
  intros Hn Hs. cbv zeta.
  assert (H : counting n (run sched (init n))).
  { generalize (counting_init n). generalize (init n).
    induction sched as [|[i c] sched IH]; intros s Hc; [done|].
    cbn [no_ctrl_c forallb] in Hs. apply andb_prop in Hs as [Hc1 Hs].
    destruct c; [|done]. simpl. apply IH; [done|]. by apply counting_step. }
  destruct H as (_ & Hw & Hc). split; [done|]. by apply worker_pc_counts.
Qed.

Lemma reference_count_without_ctrl_c_witness :
  let s := run [(0, CallSpawn); (0, CallSpawn); (1, CallSpawn); (1, CallSpawn);
                (1, CallSpawn); (0, CallSpawn); (0, CallSpawn)]%nat (init 2) in
  counter s = 2 /\ count is_outstanding (threads s) = 2 /\
  count is_sleeping (threads s) = 0.
Proof.
  assert (H2 : Z.of_nat 2 <= INT_MAX) by (vm_compute; discriminate).
  pose proof (reference_count_without_ctrl_c 2
    [(0, CallSpawn); (0, CallSpawn); (1, CallSpawn); (1, CallSpawn);
     (1, CallSpawn); (0, CallSpawn); (0, CallSpawn)]%nat H2 eq_refl)
    as (H & Hs & _).
  cbv zeta. split; [reflexivity|]. split; [reflexivity | exact Hs].
Defined.

(** X2. Once a Ctrl-C has been taken (the counter is negative) it stays
    taken, and no thread gets past [transition_to_spawn_process] any
    more: whatever step comes next, the counter is still negative and a
    thread that has entered had entered before. *)
Theorem no_entry_after_ctrl_c (n : nat) (sched : list (nat * call))
    (e : nat * call) :
  Z.of_nat n <= INT_MAX ->
  let s := run sched (init n) in
  counter s < 0 ->
  let s' := sys_step s e in
  counter s' < 0 /\
  forall i, threads s' !! i = Some Entered -> threads s !! i = Some Entered.
Proof.
  intros Hn s Hneg s'.
  pose proof (coordinated_run n sched (init n) Hn (coordinated_init n))
    as (Hlen & Hpend & Hcnt).
  fold s in Hlen, Hpend, Hcnt. cbv zeta in Hcnt.
  pose proof (count_nonneg is_outstanding (threads s)) as Hk0.
  subst s'. unfold sys_step.
  destruct (threads s !! e.1) as [p|] eqn:Hp; [|done].
  pose proof (Forall_lookup_1 _ _ _ _ Hpend Hp) as Hpp.
  pose proof (count_pos is_outstanding _ _ _ Hp) as Hpos.
  rewrite Hlen in Hpos. rewrite INT_MAX_val in Hn.
  destruct (thread_step e.2 (counter s) p) as [m' p'] eqn:Hstep.
  cbn [counter threads].
  assert (Hgoal : m' < 0 /\ (p' = Entered -> p = Entered)).
  { revert Hcnt Hstep Hneg Hpos.
    generalize (count is_outstanding (threads s))
               (count is_exiting (threads s)) (counter s) Hk0.
    clear - Hn Hpp. intros k x m Hk0 Hcnt Hstep Hneg Hpos.
    destruct p; simpl in *; unfold compare_exchange_strong, fetch_add in Hstep;
      repeat match type of Hstep with
             | context [if ?b then _ else _] => destruct b eqn:?
             | context [match ?c with CallSpawn => _ | CallCtrlC => _ end] =>
                 destruct c
             end;
      simplify_eq/=; try (specialize (Hpos eq_refl));
      rewrite ?INT_MIN_val in *;
      try (rewrite wrap_int_id by (rewrite INT_MIN_val, INT_MAX_val; lia));
      (split; [lia | try done; try lia]). }
  destruct Hgoal as [Hm' Hp']. split; [done|].
  intros i Hi. destruct (decide (i = e.1)) as [->|Hne].
  - rewrite list_lookup_insert_eq in Hi by (eapply lookup_lt_Some; eauto).
    injection Hi as ->. rewrite Hp. f_equal. by apply Hp'.
  - by rewrite list_lookup_insert_ne in Hi.
Qed.

Lemma no_entry_after_ctrl_c_witness :
  let s := run [(0, CallSpawn); (0, CallSpawn);
                (2, CallCtrlC); (2, CallCtrlC); (2, CallCtrlC);
                (1, CallSpawn)]%nat (init 3) in
  let s' := sys_step s (1%nat, CallSpawn) in
  counter s < 0 /\ threads s !! 1%nat = Some (Spawn_cas 0) /\
  counter s' < 0 /\
  forall i, threads s' !! i = Some Entered -> threads s !! i = Some Entered.
Proof.
  assert (H3 : Z.of_nat 3 <= INT_MAX) by (vm_compute; discriminate).
  cbv zeta. split; [reflexivity|]. split; [reflexivity|].
  apply (no_entry_after_ctrl_c 3
           [(0, CallSpawn); (0, CallSpawn);
            (2, CallCtrlC); (2, CallCtrlC); (2, CallCtrlC);
            (1, CallSpawn)]%nat (1%nat, CallSpawn) H3).
  reflexivity.
Defined.

(** X3. The counter encodes the pair (interrupted, outstanding): in
    every reachable state it is the number [k] of outstanding threads, or
    [INT_MIN + k] once a Ctrl-C was taken; and in the latter case a thread
    is in [Checks::final_cleanup_and_exit] exactly when [k = 0]. *)
Theorem counter_encodes_state (n : nat) (sched : list (nat * call)) :
  Z.of_nat n <= INT_MAX ->
  let s := run sched (init n) in
  let k := count is_outstanding (threads s) in
  0 <= k <= Z.of_nat n /\
  (0 <= counter s -> counter s = k /\ count is_exiting (threads s) = 0) /\
  (counter s < 0 ->
   counter s = INT_MIN + k /\
   (count is_exiting (threads s) = 1 <-> k = 0)).
Proof.
  intros Hn s k.
  pose proof (coordinated_run n sched (init n) Hn (coordinated_init n))
    as (Hlen & Hpend & Hcnt).
  fold s in Hlen, Hpend, Hcnt. cbv zeta in Hcnt. fold k in Hcnt.
  pose proof (count_nonneg is_outstanding (threads s)) as Hk0. fold k in Hk0.
  assert (Hkn : k <= Z.of_nat n).
  { subst k. rewrite <- Hlen. clear.
    induction (threads s) as [|p l IH]; simpl; [lia|].
    destruct (is_outstanding p); lia. }
  rewrite INT_MAX_val in Hn. rewrite INT_MIN_val in *.
  split; [lia|]. split; intros Hc; lia.
Qed.

Lemma counter_encodes_state_witness :
  let s := run [(0, CallSpawn); (0, CallSpawn);
                (1, CallCtrlC); (1, CallCtrlC); (1, CallCtrlC);
                (0, CallSpawn); (0, CallSpawn); (0, CallSpawn)]%nat (init 2) in
  counter s = INT_MIN /\ count is_outstanding (threads s) = 0 /\
  count is_exiting (threads s) = 1.
Proof.
  assert (H2 : Z.of_nat 2 <= INT_MAX) by (vm_compute; discriminate).
  pose proof (counter_encodes_state 2
    [(0, CallSpawn); (0, CallSpawn);
     (1, CallCtrlC); (1, CallCtrlC); (1, CallCtrlC);
     (0, CallSpawn); (0, CallSpawn); (0, CallSpawn)]%nat H2) as (_ & _ & H).
  cbv zeta in *. split; [reflexivity|]. split; [reflexivity|].
  apply H; reflexivity.
Defined.

Lemma ctrl_c_while_blocked_outstanding n m :
  0 < m <= INT_MAX ->
  ctrl_c_while_blocked (Datatypes.S n) m = Some (INT_MIN + m, false).
Proof.
  rewrite INT_MAX_val. intros Hm.
  assert (Hneg : forall k m', m' < 0 ->
            ctrl_c_while_blocked k m' = Some (m', false)).
  { induction k as [|k IH]; intros m' Hm'; [done|].
    cbn [ctrl_c_while_blocked]. rewrite transition_handle_ctrl_c_eq.
    assert ((m' =? 0) = false) as -> by lia.
    assert ((m' <? 0) = true) as -> by lia. cbn. by apply IH. }
  cbn [ctrl_c_while_blocked]. rewrite transition_handle_ctrl_c_eq.
  assert ((m =? 0) = false) as -> by lia.
  assert ((m <? 0) = false) as -> by lia. cbn [mbind option_bind].
  rewrite wrap_int_id by (rewrite INT_MIN_val, INT_MAX_val; lia).
  rewrite Z.add_comm. apply Hneg. rewrite INT_MIN_val. lia.
Qed.

(** X4. While children are outstanding, any number of Ctrl-C events has
    the effect of the first: the counter moves from [m] to [INT_MIN + m]
    once, every handler returns, and none calls
    [Checks::final_cleanup_and_exit]. *)
Theorem repeated_ctrl_c_counts_once (n : nat) (m : Z) :
  0 < m <= INT_MAX ->
  ctrl_c_while_blocked (Datatypes.S n) m = Some (INT_MIN + m, false).
Proof. apply ctrl_c_while_blocked_outstanding. Qed.

Lemma repeated_ctrl_c_counts_once_witness :
  0 < 2 <= INT_MAX /\ ctrl_c_while_blocked 3 2 = Some (INT_MIN + 2, false).
Proof.
  assert (H : 0 < 2 <= INT_MAX) by (vm_compute; split; [reflexivity | discriminate]).
  split; [exact H|]. exact (repeated_ctrl_c_counts_once 2 2 H).
Defined.

(** ** Blocking calls *)

Lemma wrap_int_as_int c : 0 <= c < 2 ^ 32 -> wrap_int c = as_int c.
Proof.
  unfold wrap_int, as_int.
  change (2 ^ 31) with 2147483648. change (2 ^ 32) with 4294967296.
  intros Hc. destruct (c <? 2147483648) eqn:E.
  - rewrite Z.mod_small; lia.
  - replace (c + 2147483648) with (c - 2147483648 + 1 * 4294967296) by lia.
    rewrite Z.mod_add by lia. rewrite Z.mod_small; lia.
Qed.

(** X5. The exit status that [GetExitCodeProcess] stores, a [DWORD], is
    returned by [cmd_execute] as an [int]: unchanged below [2^31], lowered
    by [2^32] from there on (an NTSTATUS such as [0xC0000005] comes out
    negative).  When [GetExitCodeProcess] stores nothing the call returns
    [0]. *)
Theorem cmd_execute_status_as_int (m : Z) (ch : child) :
  0 <= m < INT_MAX -> create_ok ch = true -> wait_ok ch = true ->
  ctrl_c_hits ch = O ->
  (forall c, exit_status ch = Some c -> 0 <= c < 2 ^ 32 ->
             cmd_execute m ch = Some (m, Returned (as_int c))) /\
  (exit_status ch = None -> cmd_execute m ch = Some (m, Returned 0)).
Proof.
  intros Hm Hc Hw Hh.
  assert (H : cmd_execute m ch
              = Some (m, Returned (wrap_int (default 0 (exit_status ch))))).
  { unfold cmd_execute. destruct (enter_leave m Hm) as [-> Hl]. simpl.
    rewrite Hc, Hh. simpl. unfold wait_and_close_handles. rewrite Hw.
    rewrite Hl. by destruct (exit_status ch). }
  split.
  - intros c Hst Hrange. rewrite H, Hst. simpl. by rewrite wrap_int_as_int.
  - intros Hst. by rewrite H, Hst.
Qed.

Lemma cmd_execute_status_as_int_witness :
  cmd_execute 0 (Child true true [] true (Some 3221225477) 0)
  = Some (0, Returned (-1073741819)) /\
  cmd_execute 0 (Child true true [] true None 0) = Some (0, Returned 0).
Proof.
  assert (H0 : 0 <= 0 < INT_MAX) by (vm_compute; split; [discriminate | reflexivity]).
  split.
  - apply (proj1 (cmd_execute_status_as_int 0
             (Child true true [] true (Some 3221225477) 0)
             H0 eq_refl eq_refl eq_refl) 3221225477 eq_refl).
    vm_compute. split; [discriminate | reflexivity].
  - apply (proj2 (cmd_execute_status_as_int 0
             (Child true true [] true None 0) H0 eq_refl eq_refl eq_refl)).
    reflexivity.
Defined.

(** The counter after entering and one or more Ctrl-C, and what leaving
    does then. *)
Lemma leave_after_ctrl_c {A : Type} m (a : A) :
  0 <= m < INT_MAX ->
  leave_spawn (INT_MIN + (m + 1)) a
  = Some (INT_MIN + m, if m =? 0 then ProcessExits else Hangs).
Proof.
  rewrite INT_MAX_val. intros Hm. rewrite leave_spawn_eq.
  rewrite wrap_int_id by (rewrite INT_MIN_val, INT_MAX_val; lia).
  rewrite INT_MIN_val. f_equal. f_equal; [lia|].
  destruct (m =? 0) eqn:E.
  - assert ((-2147483648 + (m + 1) =? -2147483648 + 1) = true) as -> by lia.
    done.
  - assert ((-2147483648 + (m + 1) =? -2147483648 + 1) = false) as -> by lia.
    assert ((-2147483648 + (m + 1) <? 0) = true) as -> by lia. done.
Qed.



(** X7. When the child cannot be started ([CreatePipe],
    [SetHandleInformation] or [CreateProcessW] fails) the process exits:
    no callback is called, not even the last [per_line_cb], and the
    counter keeps the increment of [transition_to_spawn_process]. *)
Theorem launch_failure_exits (m : Z) (ch : child) :
  0 <= m < INT_MAX ->
  (create_ok ch = false ->
   cmd_execute m ch = Some (m + 1, ProcessExits)) /\
  (pipes_ok ch && create_ok ch = false ->
   (forall (S : Type) (f : S -> list ascii -> S) (st : S),
      cmd_execute_and_stream_data f m ch st = Some (m + 1, st, ProcessExits)) /\
   cmd_execute_and_stream_lines m ch = Some (m + 1, [], ProcessExits) /\
   cmd_execute_and_capture_output m ch = Some (m + 1, ProcessExits)).
Proof.
  intros Hm. destruct (enter_leave m Hm) as [He _]. split.
  - intros Hc. unfold cmd_execute. rewrite He. simpl. by rewrite Hc.
  - intros Hc.
    assert (Hd : forall (S : Type) (f : S -> list ascii -> S) (st : S),
      cmd_execute_and_stream_data f m ch st = Some (m + 1, st, ProcessExits)).
    { intros S f st. unfold cmd_execute_and_stream_data. rewrite He. simpl.
      by rewrite Hc. }
    split; [exact Hd|]. split.
    + unfold cmd_execute_and_stream_lines. by rewrite Hd.
    + unfold cmd_execute_and_capture_output. by rewrite Hd.
Qed.

Lemma launch_failure_exits_witness :
  cmd_execute 0 (Child true false [ReadOk (bytes "x")] true (Some 0) 0)
  = Some (1, ProcessExits) /\
  cmd_execute_and_stream_lines 0
    (Child false true [ReadOk (bytes "x")] true (Some 0) 0)
  = Some (1, [], ProcessExits).
Proof.
  assert (H0 : 0 <= 0 < INT_MAX) by (vm_compute; split; [discriminate | reflexivity]).
  split.
  - exact (proj1 (launch_failure_exits 0
             (Child true false [ReadOk (bytes "x")] true (Some 0) 0) H0) eq_refl).
  - exact (proj1 (proj2 (proj2 (launch_failure_exits 0
             (Child false true [ReadOk (bytes "x")] true (Some 0) 0) H0) eq_refl))).
Defined.

(** ** Streaming and capture *)

Lemma delivered_pipe_of chunks tail :
  forallb nonempty chunks = true -> ends_stream tail = true ->
  delivered (pipe_of chunks ++ tail) = chunks.
Proof.
  intros Hne Ht. induction chunks as [|c chunks IH]; simpl in *.
  - destruct tail as [|[bytes|err] tail]; [done| |done].
    simpl in *. by destruct bytes.
  - apply andb_prop in Hne as [Hc Hne]. destruct c; [done|]. simpl.
    by rewrite IH.
Qed.

Lemma capture_of_delivered m ch :
  undisturbed m ch = true ->
  cmd_execute_and_capture_output m ch =
  Some (m, Returned {| exit_code := wrap_int (default 0 (exit_status ch));
                       output := concat (delivered (reads ch)) |}).
Proof.
  intros Hu. unfold cmd_execute_and_capture_output.
  rewrite cmd_execute_and_stream_data_undisturbed by done.
  by rewrite read_loop_delivered, fold_left_append.
Qed.

Lemma lines_of_delivered m ch :
  undisturbed m ch = true ->
  cmd_execute_and_stream_lines m ch =
  Some (m, split_lines (concat (delivered (reads ch))),
        Returned (wrap_int (default 0 (exit_status ch)))).
Proof.
  intros Hu. by apply stream_lines_of_captured_output, capture_of_delivered.
Qed.

(** X8. [cmd_execute_and_capture_output] returns the child's exit code
    and exactly the bytes read before the first [ReadFile] that fails or
    reads nothing, in order, none dropped and none twice; what the pipe
    would give after such a read (a zero-byte write by the child is
    enough) is never read.  The counter is as before the call. *)
Theorem capture_is_what_was_read (m : Z) (ch : child)
    (chunks : list (list ascii)) (tail : list read_result) :
  undisturbed m ch = true ->
  reads ch = pipe_of chunks ++ tail ->
  forallb nonempty chunks = true ->
  ends_stream tail = true ->
  cmd_execute_and_capture_output m ch =
  Some (m, Returned {| exit_code := wrap_int (default 0 (exit_status ch));
                       output := concat chunks |}).
Proof.
  intros Hu Hr Hne Ht. rewrite capture_of_delivered by done.
  by rewrite Hr, delivered_pipe_of.
Qed.

Lemma capture_is_what_was_read_witness :
  cmd_execute_and_capture_output 0
    (Child true true
       [ReadOk (bytes "ab"); ReadOk (bytes "cd"); ReadOk []; ReadOk (bytes "lost")]
       true (Some 7) 0)
  = Some (0, Returned {| exit_code := 7; output := bytes "abcd" |}).
Proof.
  exact (capture_is_what_was_read 0
           (Child true true
              [ReadOk (bytes "ab"); ReadOk (bytes "cd"); ReadOk [];
               ReadOk (bytes "lost")] true (Some 7) 0)
           [bytes "ab"; bytes "cd"] [ReadOk []; ReadOk (bytes "lost")]
           eq_refl eq_refl eq_refl eq_refl).
Defined.

(** X9. The lines handed to [per_line_cb] do not depend on how the output
    arrives: two children whose reads add up to the same bytes, with the
    same exit status, give the same calls whatever the chunk boundaries
    are. *)
Theorem lines_independent_of_chunking (m : Z) (ch1 ch2 : child) :
  undisturbed m ch1 = true -> undisturbed m ch2 = true ->
  concat (delivered (reads ch1)) = concat (delivered (reads ch2)) ->
  exit_status ch1 = exit_status ch2 ->
  cmd_execute_and_stream_lines m ch1 = cmd_execute_and_stream_lines m ch2.
Proof.
  intros H1 H2 Hout Hst. rewrite !lines_of_delivered by done.
  by rewrite Hout, Hst.
Qed.

Lemma lines_independent_of_chunking_witness :
  cmd_execute_and_stream_lines 0
    (Child true true (pipe_of [bytes "a" ++ [LF] ++ bytes "b"]) true (Some 0) 0)
  = cmd_execute_and_stream_lines 0
    (Child true true (pipe_of [bytes "a"; [LF]; bytes "b"]) true (Some 0) 0).
Proof.
  exact (lines_independent_of_chunking 0
           (Child true true (pipe_of [bytes "a" ++ [LF] ++ bytes "b"]) true (Some 0) 0)
           (Child true true (pipe_of [bytes "a"; [LF]; bytes "b"]) true (Some 0) 0)
           eq_refl eq_refl eq_refl eq_refl).
Defined.

Lemma lines_delivered_prefix chunks :
  exists ls buf,
    fold_left lines_data_cb chunks (Some ([], [])) = Some (buf, ls) /\
    split_lines (concat chunks) = ls ++ [buf].
Proof.
  destruct (lines_data_cb_fold chunks [] []) as (ls & buf & H & Hb & Hs);
    [done|].
  exists ls, buf. done.
Qed.

(** X10. After every chunk the lambda of [cmd_execute_and_stream_lines]
    has handed over every line whose ['\n'] has arrived, and [buf] holds
    the unfinished rest, without any ['\n']: lines are delivered as they
    complete, not at the end. *)
Theorem lines_delivered_as_they_complete (chunks : list (list ascii)) :
  exists ls buf,
    fold_left lines_data_cb chunks (Some ([], [])) = Some (buf, ls) /\
    split_lines (concat chunks) = ls ++ [buf] /\
    occurrences LF buf = O.
Proof.
  destruct (lines_data_cb_fold chunks [] []) as (ls & buf & H & Hb & Hs);
    [done|].
  exists ls, buf. done.
Qed.

Lemma split_lines_no_LF_inside l :
  Forall (fun x => occurrences LF x = O) (split_lines l).
Proof.
  induction l as [|c l IH]; cbn [split_lines].
  - by constructor.
  - destruct (Ascii.eqb c LF) eqn:Hc; [by constructor|].
    destruct (split_lines l) as [|x xs]; [by constructor; [simpl; rewrite Hc|]|].
    inversion IH as [|? ? Hx Hxs]; subst. constructor; [|done].
    simpl. by rewrite Hc.
Qed.

(** How [cmd_execute_and_stream_data] ends, and whether it ran the read
    loop, does not depend on the callback. *)
Lemma cmd_execute_and_stream_data_shape m ch :
  exists m' r (ran : bool),
    (ran = false -> forall rc, r <> Returned rc) /\
    forall (S : Type) (f : S -> list ascii -> S) (st : S),
      cmd_execute_and_stream_data f m ch st
      = Some (m', if ran then read_loop f (reads ch) st else st, r).
Proof.
  unfold cmd_execute_and_stream_data, wait_and_stream_output.
  rewrite transition_to_spawn_process_eq.
  destruct (if m =? 0 then (wrap_int 1, Returns)
            else if m <? 0 then (m, SleepsForever)
            else (wrap_int (m + 1), Returns)) as [m1 o1].
  cbn [mbind option_bind].
  destruct o1; [|by exists m1, Hangs, false | by exists m1, ProcessExits, false].
  destruct (negb (pipes_ok ch && create_ok ch));
    [by exists m1, ProcessExits, false|].
  destruct (ctrl_c_while_blocked_total (ctrl_c_hits ch) m1) as (m2 & b & ->).
  cbn [mbind option_bind].
  destruct b; [by exists m2, ProcessExits, true|].
  destruct (wait_and_close_handles ch) as [code| |];
    [|by exists m2, ProcessExits, true | by exists m2, Hangs, true].
  eexists _, _, true. split; [done|]. intros S f st.
  rewrite leave_spawn_eq. reflexivity.
Qed.

(** X11. Whatever the counter holds and whatever the child and the
    system do, the calls of [per_line_cb] are an initial segment of the
    lines of the bytes read, and no line handed over contains a
    ['\n']. *)
Theorem lines_are_prefix_of_output (m : Z) (ch : child) :
  exists m' lines r,
    cmd_execute_and_stream_lines m ch = Some (m', lines, r) /\
    lines `prefix_of` split_lines (concat (delivered (reads ch))) /\
    Forall (fun l => occurrences LF l = O) lines.
Proof.
  destruct (cmd_execute_and_stream_data_shape m ch) as (m' & r & ran & Hran & H).
  unfold cmd_execute_and_stream_lines. rewrite H. cbn [mbind option_bind].
  destruct (lines_delivered_prefix (delivered (reads ch)))
    as (ls & buf & Hf & Hs).
  pose proof (split_lines_no_LF_inside (concat (delivered (reads ch)))) as Hno.
  rewrite Hs in Hno.
  destruct ran.
  - rewrite read_loop_delivered, Hf. cbn [mbind option_bind].
    do 3 eexists. split; [reflexivity|]. rewrite Hs.
    destruct r; [split; [done|done]|..];
      (split; [by exists [buf] | by apply Forall_app in Hno as [? _]]).
  - cbn [mbind option_bind]. do 3 eexists. split; [reflexivity|].
    destruct r as [rc| |]; [by specialize (Hran eq_refl rc)|..];
      (split; [apply prefix_nil | constructor]).
Qed.

(** X12. A Ctrl-C handled while [cmd_execute_and_stream_lines] is
    blocked: the output is still read to its end and every complete line
    is handed to [per_line_cb], but the call does not return, so the
    unfinished last line is never handed over. *)
Theorem stream_lines_interrupted (m : Z) (ch : child) :
  0 <= m < INT_MAX ->
  pipes_ok ch = true -> create_ok ch = true -> wait_ok ch = true ->
  (0 < ctrl_c_hits ch)%nat ->
  exists ls buf,
    split_lines (concat (delivered (reads ch))) = ls ++ [buf] /\
    cmd_execute_and_stream_lines m ch
    = Some (INT_MIN + m, ls, if m =? 0 then ProcessExits else Hangs).
Proof.
  intros Hm Hp Hc Hw Hh.
  destruct (lines_delivered_prefix (delivered (reads ch)))
    as (ls & buf & Hf & Hs).
  exists ls, buf. split; [done|].
  unfold cmd_execute_and_stream_lines, cmd_execute_and_stream_data,
    wait_and_stream_output.
  destruct (enter_leave m Hm) as [-> _]. cbn [mbind option_bind].
  rewrite Hp, Hc. cbn [andb negb].
  destruct (ctrl_c_hits ch) as [|k]; [lia|].
  rewrite ctrl_c_while_blocked_outstanding by (rewrite INT_MAX_val in *; lia).
  cbn [mbind option_bind]. unfold wait_and_close_handles. rewrite Hw.
  rewrite leave_after_ctrl_c by done. cbn [mbind option_bind].
  rewrite read_loop_delivered, Hf. cbn [mbind option_bind].
  by destruct (m =? 0).
Qed.

Lemma stream_lines_interrupted_witness :
  let ch := Child true true (pipe_of [bytes "done" ++ [LF] ++ bytes "half"])
              true (Some 0) 1 in
  exists ls buf,
    split_lines (concat (delivered (reads ch))) = ls ++ [buf] /\
    cmd_execute_and_stream_lines 0 ch
    = Some (INT_MIN + 0, ls, if 0 =? 0 then ProcessExits else Hangs).
Proof.
  assert (H0 : 0 <= 0 < INT_MAX) by (vm_compute; split; [discriminate | reflexivity]).
  assert (Hh : (0 < 1)%nat) by lia.
  exact (stream_lines_interrupted 0
           (Child true true (pipe_of [bytes "done" ++ [LF] ++ bytes "half"])
              true (Some 0) 1) H0 eq_refl eq_refl eq_refl Hh).
Defined.

(** X13. [cmd_execute_and_stream_lines] and
    [cmd_execute_and_capture_output] agree on every child, whatever its
    reads are: when capturing returns the output [out], streaming returns
    the same exit code and has called [per_line_cb] once more than [out]
    has ['\n'], with lines that joined by ['\n'] are [out]. *)
Theorem lines_agree_with_capture (m m' rc : Z) (ch : child) (out : list ascii) :
  cmd_execute_and_capture_output m ch
  = Some (m', Returned {| exit_code := rc; output := out |}) ->
  exists lines,
    cmd_execute_and_stream_lines m ch = Some (m', lines, Returned rc) /\
    length lines = Datatypes.S (occurrences LF out) /\
    unlines lines = out.
Proof.
  intros H. exists (split_lines out). split.
  - by apply stream_lines_of_captured_output.
  - split; [apply length_split_lines | apply unlines_split_lines].
Qed.

Lemma lines_agree_with_capture_witness :
  exists lines,
    cmd_execute_and_stream_lines 0
      (Child true true
         [ReadOk (bytes "a" ++ [LF]); ReadFailed ERROR_BROKEN_PIPE] true (Some 3) 0)
    = Some (0, lines, Returned 3) /\
    length lines = 2%nat /\ unlines lines = bytes "a" ++ [LF].
Proof.
  exact (lines_agree_with_capture 0 0 3
           (Child true true
              [ReadOk (bytes "a" ++ [LF]); ReadFailed ERROR_BROKEN_PIPE]
              true (Some 3) 0)
           (bytes "a" ++ [LF]) eq_refl).
Defined.

(** ** The [popen] branch *)

Lemma strlen_view_no_NUL buf : occurrences NUL (strlen_view buf) = O.
Proof.
  induction buf as [|c buf IH]; simpl; [done|].
  change "000"%char with NUL. destruct (Ascii.eqb c NUL) eqn:Hc; [done|].
  simpl. by rewrite Hc.
Qed.

Lemma strlen_view_prefix buf : strlen_view buf `prefix_of` buf.
Proof.
  induction buf as [|c buf IH]; simpl; [done|].
  destruct (Ascii.eqb c "000"); [apply prefix_nil | by apply prefix_cons].
Qed.

Lemma strlen_view_id buf : occurrences NUL buf = O -> strlen_view buf = buf.
Proof.
  induction buf as [|c buf IH]; simpl; [done|].
  change "000"%char with NUL. destruct (Ascii.eqb c NUL); simpl; [lia|].
  intros H. by rewrite IH.
Qed.

Lemma fold_left_strlen bufs acc :
  fold_left (fun st buf => st ++ strlen_view buf) bufs acc
  = acc ++ concat (map strlen_view bufs).
Proof.
  revert acc. induction bufs as [|b bufs IH]; intros acc; simpl.
  - by rewrite app_nil_r.
  - by rewrite IH, app_assoc.
Qed.

(** X14. In the [popen] branch the callback receives each [fgets] buffer
    up to its first NUL only ([strlen]): the bytes received never contain
    a NUL, what follows a NUL in a buffer is lost, and when no buffer
    holds a NUL the bytes received are all the bytes read.  The value
    returned is [pclose]'s when the stream was read to its end and [1]
    otherwise. *)
Theorem popen_branch_output (ch : posix_child) :
  popen_ok ch = true ->
  let r := cmd_execute_and_stream_data_posix
             (fun (out sv : list ascii) => out ++ sv) ch [] in
  r.1 = concat (map strlen_view (fgets_bufs ch)) /\
  r.2 = (if at_eof ch then pclose_status ch else 1) /\
  occurrences NUL r.1 = O /\
  (forallb (fun b => (occurrences NUL b =? 0)%nat) (fgets_bufs ch) = true ->
   r.1 = concat (fgets_bufs ch)).
Proof.
  intros Hp. cbv zeta. unfold cmd_execute_and_stream_data_posix.
  rewrite Hp. cbn [negb]. rewrite fold_left_strlen. cbn [app].
  assert (Hr : (if negb (at_eof ch)
                then (concat (map strlen_view (fgets_bufs ch)), 1)
                else (concat (map strlen_view (fgets_bufs ch)), pclose_status ch))
               = (concat (map strlen_view (fgets_bufs ch)),
                  if at_eof ch then pclose_status ch else 1))
    by (by destruct (at_eof ch)).
  rewrite Hr. clear Hr. cbn [fst snd]. split; [done|]. split; [done|]. split.
  - induction (fgets_bufs ch) as [|b bufs IH]; [done|].
    cbn [map concat]. by rewrite occurrences_app, strlen_view_no_NUL, IH.
  - intros Hno. induction (fgets_bufs ch) as [|b bufs IH]; [done|].
    cbn [forallb] in Hno. apply andb_prop in Hno as [Hb Hno].
    apply Nat.eqb_eq in Hb. cbn [map concat].
    by rewrite strlen_view_id, IH.
Qed.

Lemma popen_branch_output_witness :
  cmd_execute_and_stream_data_posix (fun (out sv : list ascii) => out ++ sv)
    (PosixChild true [bytes "ab" ++ [NUL] ++ bytes "cd" ++ [LF]; bytes "ef"] true 0) []
  = (bytes "abef", 0).
Proof.
  pose proof (popen_branch_output
    (PosixChild true [bytes "ab" ++ [NUL] ++ bytes "cd" ++ [LF]; bytes "ef"] true 0)
    eq_refl) as (H1 & H2 & _).
  cbv zeta in *.
  destruct (cmd_execute_and_stream_data_posix _ _ _) as [out rc].
  cbn [fst snd] in *. rewrite H1, H2. reflexivity.
Defined.

(** ** More on environment-diff extraction *)

Lemma parse_set_output_nil fuel : parse_set_output fuel [] = Some [].
Proof. by destruct fuel. Qed.

(** X15. Printing and reading back: when the output is the sentinel line
    (for the first time) followed by the lines [NAME=VALUE\r\n] of pairs
    whose names hold no ['='] and whose values hold no ['\r'], the block
    holds exactly these pairs, in order.  A value may contain ['=']: a
    line is cut at its first ['=']. *)
Theorem modify_env_round_trip (m : Z) (ch : child)
    (chunks : list (list ascii)) (pre : list ascii)
    (ps : list (list ascii * list ascii)) :
  undisturbed m ch = true ->
  reads ch = pipe_of chunks ->
  forallb nonempty chunks = true ->
  exit_status ch = Some 0 ->
  search pre sentinel = length pre ->
  forallb well_formed ps = true ->
  concat chunks = pre ++ sentinel ++ set_lines ps ->
  cmd_execute_modify_env_pairs m ch = Some (m, Returned ps).
Proof.
  intros Hu Hr Hne Hst Hpre Hps Hout.
  rewrite (cmd_execute_modify_env_pairs_body m ch chunks pre _ Hu Hr Hne Hst Hout Hpre).
  rewrite <- (app_nil_r (set_lines ps)).
  rewrite parse_set_output_lines; [done | done | | apply length_set_lines].
  intros fuel'. apply parse_set_output_nil.
Qed.

Lemma modify_env_round_trip_witness :
  let out := bytes "hello" ++ [CR; LF] ++ sentinel
             ++ bytes "A=1" ++ [CR; LF] ++ bytes "B=x=y" ++ [CR; LF] in
  cmd_execute_modify_env_pairs 0 (Child true true (pipe_of [out]) true (Some 0) 0) =
  Some (0, Returned [(bytes "A", bytes "1"); (bytes "B", bytes "x=y")]).
Proof.
  apply (modify_env_round_trip 0 _
           [bytes "hello" ++ [CR; LF] ++ sentinel
            ++ bytes "A=1" ++ [CR; LF] ++ bytes "B=x=y" ++ [CR; LF]]
           (bytes "hello" ++ [CR; LF])
           [(bytes "A", bytes "1"); (bytes "B", bytes "x=y")]);
    reflexivity.
Defined.

(** The loop takes a line ended by a lone ['\r'], when no ['\n'] follows. *)
Lemma parse_set_output_line_cr fuel e rest :
  well_formed e = true -> starts_with_LF rest = false ->
  parse_set_output (Datatypes.S fuel) (set_line_cr e ++ rest)
  = cons e <$> parse_set_output fuel rest.
Proof.
  destruct e as [name value]. unfold well_formed, set_line_cr. cbn [fst snd].
  intros H Hrest. apply andb_prop in H as [Hn Hv].
  apply Nat.eqb_eq in Hn, Hv.
  cbn [parse_set_output].
  replace ((name ++ "="%char :: value ++ [CR]) ++ rest)
    with (name ++ "="%char :: (value ++ CR :: rest))
    by (by rewrite <- !app_assoc; cbn [app]; rewrite <- app_assoc).
  rewrite find_first by done.
  rewrite length_app. cbn [length].
  destruct (length name =? length name + Datatypes.S (length (value ++ CR :: rest)))%nat eqn:E;
    [apply Nat.eqb_eq in E; lia|].
  rewrite take_app_length, drop_after, find_first by done.
  rewrite length_app. cbn [length].
  destruct (length value =? length value + Datatypes.S (length rest))%nat eqn:E';
    [apply Nat.eqb_eq in E'; lia|].
  rewrite take_app_length, drop_after.
  destruct rest as [|c rest]; [done|]. simpl in Hrest. by rewrite Hrest.
Qed.

(** X16. Lines ended by a lone ['\r'] are read like lines ended by
    ["\r\n"], as long as no name begins with ['\n']: the ['\n'] after a
    ['\r'] is skipped when it is there and not asked for. *)
Theorem modify_env_accepts_lone_CR (m : Z) (ch : child)
    (chunks : list (list ascii)) (pre : list ascii)
    (ps : list (list ascii * list ascii)) :
  undisturbed m ch = true ->
  reads ch = pipe_of chunks ->
  forallb nonempty chunks = true ->
  exit_status ch = Some 0 ->
  search pre sentinel = length pre ->
  forallb well_formed ps = true ->
  forallb (fun e => negb (starts_with_LF e.1)) ps = true ->
  concat chunks = pre ++ sentinel ++ concat (map set_line_cr ps) ->
  cmd_execute_modify_env_pairs m ch = Some (m, Returned ps).
Proof.
  intros Hu Hr Hne Hst Hpre Hps Hlf Hout.
  rewrite (cmd_execute_modify_env_pairs_body m ch chunks pre _ Hu Hr Hne Hst Hout Hpre).
  assert (H : forall fuel, (length ps <= fuel)%nat ->
            parse_set_output fuel (concat (map set_line_cr ps)) = Some ps).
  { clear - Hps Hlf. induction ps as [|e ps IH]; intros fuel Hfuel.
    - apply parse_set_output_nil.
    - cbn [forallb] in Hps, Hlf.
      apply andb_prop in Hps as [He Hps]. apply andb_prop in Hlf as [Hl Hlf].
      destruct fuel as [|fuel]; [simpl in Hfuel; lia|].
      cbn [map concat]. rewrite parse_set_output_line_cr; [| done |].
      + rewrite IH; [done | done | done | simpl in Hfuel; lia].
      + destruct ps as [|[n v] ps]; [done|]. cbn [forallb fst] in Hlf.
        apply andb_prop in Hlf as [Hn _]. cbn [map concat].
        unfold set_line_cr at 1. cbn [fst snd].
        destruct n as [|c n]; [done|]. simpl in *. by destruct (Ascii.eqb c LF). }
  rewrite H; [done|]. clear. induction ps as [|e ps IH]; simpl; [lia|].
  rewrite length_app. unfold set_line_cr at 1. rewrite length_app. simpl. lia.
Qed.

Lemma modify_env_accepts_lone_CR_witness :
  let out := sentinel ++ bytes "A=1" ++ [CR] ++ bytes "B=2" ++ [CR] in
  cmd_execute_modify_env_pairs 0 (Child true true (pipe_of [out]) true (Some 0) 0) =
  Some (0, Returned [(bytes "A", bytes "1"); (bytes "B", bytes "2")]).
Proof.
  apply (modify_env_accepts_lone_CR 0 _
           [sentinel ++ bytes "A=1" ++ [CR] ++ bytes "B=2" ++ [CR]] []
           [(bytes "A", bytes "1"); (bytes "B", bytes "2")]);
    reflexivity.
Defined.

(** X17. [cmd_execute_modify_env] leaves the process, and returns no
    block, when the setup command ends with an exit code other than [0]
    and when the output read does not contain the sentinel followed by
    ["\r\n"]. *)
Theorem modify_env_exits_on_failure (m : Z) (ch : child) :
  undisturbed m ch = true ->
  wrap_int (default 0 (exit_status ch)) <> 0 \/
  search (concat (delivered (reads ch))) sentinel
  = length (concat (delivered (reads ch))) ->
  cmd_execute_modify_env m ch = Some (m, ProcessExits).
Proof.
  intros Hu H. unfold cmd_execute_modify_env, cmd_execute_modify_env_pairs.
  rewrite capture_of_delivered by done.
  cbn [mbind option_bind exit_code output].
  destruct (wrap_int (default 0 (exit_status ch)) =? 0) eqn:E; [|done].
  cbn [negb]. destruct H as [H|H]; [lia|].
  fold sentinel. rewrite H, Nat.eqb_refl. done.
Qed.

Lemma modify_env_exits_on_failure_witness :
  cmd_execute_modify_env 0
    (Child true true (pipe_of [sentinel ++ bytes "A=1" ++ [CR; LF]]) true (Some 2) 0)
  = Some (0, ProcessExits) /\
  cmd_execute_modify_env 0
    (Child true true (pipe_of [magic_string ++ [LF] ++ bytes "A=1" ++ [CR; LF]])
       true (Some 0) 0)
  = Some (0, ProcessExits).
Proof.
  split.
  - apply (modify_env_exits_on_failure 0
             (Child true true (pipe_of [sentinel ++ bytes "A=1" ++ [CR; LF]])
                true (Some 2) 0) eq_refl).
    left. vm_compute. discriminate.
  - apply (modify_env_exits_on_failure 0
             (Child true true
                (pipe_of [magic_string ++ [LF] ++ bytes "A=1" ++ [CR; LF]])
                true (Some 0) 0) eq_refl).
    right. reflexivity.
Defined.

(** On every text the loop ends within the fuel given, and what it yields
    is well formed. *)
Lemma parse_set_output_well_formed fuel rest :
  (length rest <= fuel)%nat ->
  exists es, parse_set_output fuel rest = Some es /\
             forallb well_formed es = true.
Proof.
  revert rest. induction fuel as [|fuel IH]; intros rest Hlen.
  - destruct rest; [|simpl in Hlen; lia]. by exists [].
  - cbn [parse_set_output].
    pose proof (find_le "="%char rest) as Hle.
    destruct (find "="%char rest =? length rest)%nat eqn:Eeq; [by exists []|].
    apply Nat.eqb_neq in Eeq.
    destruct (find_split "="%char rest) as [Hrest Hname]; [lia|].
    set (after_eq := drop (Datatypes.S (find "="%char rest)) rest) in *.
    pose proof (find_le CR after_eq) as Hle'.
    destruct (find CR after_eq =? length after_eq)%nat eqn:Enl; [by exists []|].
    apply Nat.eqb_neq in Enl.
    destruct (find_split CR after_eq) as [Hafter Hvalue]; [lia|].
    set (rest' := drop (Datatypes.S (find CR after_eq)) after_eq) in *.
    assert (Hl1 : (length after_eq < length rest)%nat).
    { pose proof (f_equal length Hrest) as Hl.
      rewrite length_app in Hl. cbn [length] in Hl. lia. }
    assert (Hl2 : (length rest' < length after_eq)%nat).
    { pose proof (f_equal length Hafter) as Hl.
      rewrite length_app in Hl. cbn [length] in Hl. lia. }
    destruct (IH (match rest' with
                  | c :: r => if Ascii.eqb c LF then r else rest'
                  | [] => rest'
                  end)) as (es & -> & Hes).
    { destruct rest' as [|c r]; [simpl in *; lia|].
      destruct (Ascii.eqb c LF); simpl in *; lia. }
    eexists. split; [reflexivity|].
    cbn [forallb]. rewrite Hes. unfold well_formed. cbn [fst snd].
    by rewrite Hname, Hvalue.
Qed.

(** X18. For every counter value, child and output, the model of
    [cmd_execute_modify_env] gives a result; and whenever a block is
    returned, no name in it contains ['='] and no value contains
    ['\r'] (a name may well contain a line end, a value may contain
    ['=']). *)
Theorem modify_env_pairs_well_formed (m : Z) (ch : child) :
  exists m' r,
    cmd_execute_modify_env_pairs m ch = Some (m', r) /\
    forall es, r = Returned es -> forallb well_formed es = true.
Proof.
  unfold cmd_execute_modify_env_pairs, cmd_execute_and_capture_output.
  destruct (cmd_execute_and_stream_data_shape m ch) as (m' & r & ran & _ & H).
  rewrite H. cbn [mbind option_bind].
  destruct r as [rc| |]; [|by exists m', ProcessExits | by exists m', Hangs].
  cbn [exit_code output].
  destruct (negb (rc =? 0)); [by exists m', ProcessExits|].
  match goal with
  | |- context [(?a =? ?b)%nat] => destruct (a =? b)%nat
  end; [by exists m', ProcessExits|].
  match goal with
  | |- context [parse_set_output (length ?x) ?x] =>
      destruct (parse_set_output_well_formed (length x) x) as (es & -> & Hes);
        [done|]
  end.
  cbn [mbind option_bind]. do 2 eexists. split; [reflexivity|].
  by intros es' [= <-].
Qed.

(** ** More on the environment block *)

(** X19. The block is a faithful encoding of its entries: when no name or
    value holds a [L'\0'] and no name holds ['='], cutting
    [m_env_data] at every [L'\0'] and each piece at its first ['='] gives
    back the entries that [get_environment] appended, in order. *)
Theorem environment_block_reads_back
    (get_environment_variable : string -> option string)
    (Strings_split : string -> string -> list string)
    (extra_env : gmap string string) (prepend_to_path : string)
    (es : list (string * string)) :
  get_environment_entries get_environment_variable Strings_split
    extra_env prepend_to_path = Some es ->
  forallb readable es = true ->
  exists env,
    get_environment get_environment_variable Strings_split
      extra_env prepend_to_path = Some env /\
    map entry_pair (block_entries (m_env_data env))
    = map (fun e => (bytes e.1, bytes e.2)) es.
Proof.
  intros Hes Hr. exists (render es). unfold get_environment. rewrite Hes.
  split; [done|]. by apply block_entries_render.
Qed.

Lemma environment_block_reads_back_witness :
  exists env,
    get_environment
      (env_of [("SystemRoot", "C:\Windows"); ("TEMP", "C:\T")]%string)
      split_chars {[ "FOO"%string := "a=b"%string ]} ""%string = Some env /\
    map entry_pair (block_entries (m_env_data env))
    = [(bytes "SystemRoot", bytes "C:\Windows"); (bytes "TEMP", bytes "C:\T");
       (bytes "Path", bytes "C:\Windows\system32;C:\Windows;C:\Windows\system32\Wbem;C:\Windows\system32\WindowsPowerShell\v1.0\");
       (bytes "VSLANG", bytes "1033"); (bytes "FOO", bytes "a=b")].
Proof.
  apply (environment_block_reads_back
           (env_of [("SystemRoot", "C:\Windows"); ("TEMP", "C:\T")]%string)
           split_chars {[ "FOO"%string := "a=b"%string ]} ""%string
           [("SystemRoot", "C:\Windows"); ("TEMP", "C:\T");
            ("Path", "C:\Windows\system32;C:\Windows;C:\Windows\system32\Wbem;C:\Windows\system32\WindowsPowerShell\v1.0\");
            ("VSLANG", "1033"); ("FOO", "a=b")]%string);
    vm_compute; reflexivity.
Defined.

(** A literal name that is not in the allow-list. *)
Ltac not_listed :=
  let H := fresh in
  cbv [allow_list In]; intros H;
  repeat (destruct H as [H|H]; [discriminate H|]); exact H.

Lemma names_app es es' : names (es ++ es') = names es ++ names es'.
Proof. apply map_app. Qed.

Lemma Path_not_listed : ~ In "Path"%string allow_list.
Proof. not_listed. Qed.

Lemma VSLANG_not_listed : ~ In "VSLANG"%string allow_list.
Proof. not_listed. Qed.

Lemma allow_list_NoDup : NoDup allow_list.
Proof. apply (bool_decide_unpack _). vm_compute. reflexivity. Qed.

Lemma names_base_entries_in getenv l n :
  In n (names (base_entries getenv l)) -> In n l.
Proof.
  unfold names. rewrite in_map_iff. intros ([k v] & <- & Hin).
  by apply in_base_entries in Hin as (? & _).
Qed.

Lemma names_base_entries_NoDup getenv l :
  NoDup l -> NoDup (names (base_entries getenv l)).
Proof.
  induction 1 as [|x l Hx Hl IH]; simpl; [constructor|].
  destruct (getenv x) as [v|]; [|done].
  destruct (is_empty v); [done|]. simpl. constructor; [|done].
  rewrite list_elem_of_In. intros Hin. apply names_base_entries_in in Hin.
  by apply list_elem_of_In in Hin.
Qed.

Lemma names_extra_entries_in items n :
  In n (names (extra_entries items)) -> In n (names items) /\ n <> "PATH"%string.
Proof.
  unfold names. rewrite !in_map_iff. intros ([k v] & <- & Hin).
  apply in_extra_entries in Hin as [Hin Hne]. split; [|done].
  by exists (k, v).
Qed.

Lemma names_extra_entries_NoDup items :
  NoDup (names items) -> NoDup (names (extra_entries items)).
Proof.
  induction items as [|[k v] items IH]; simpl; [done|].
  intros Hnd. apply NoDup_cons in Hnd as [Hk Hnd].
  destruct (String.eqb k "PATH"); [by apply IH|].
  simpl. apply NoDup_cons. split; [|by apply IH].
  rewrite list_elem_of_In. intros Hin.
  apply names_extra_entries_in in Hin as [Hin _].
  by apply list_elem_of_In in Hin.
Qed.

(** X20. When the keys of a block are unique: with
    [VCPKG_KEEP_ENV_VARS] unset, and no extra variable other than [PATH]
    named like an allow-listed variable, [Path] or [VSLANG], no name is
    bound twice in the block. *)
Theorem block_names_unique
    (get_environment_variable : string -> option string)
    (Strings_split : string -> string -> list string)
    (extra_env : gmap string string) (prepend_to_path : string)
    (es : list (string * string)) :
  get_environment_entries get_environment_variable Strings_split
    extra_env prepend_to_path = Some es ->
  get_environment_variable "VCPKG_KEEP_ENV_VARS"%string = None ->
  (forall n, is_Some (extra_env !! n) -> n <> "PATH"%string ->
             ~ In n allow_list /\ n <> "Path"%string /\ n <> "VSLANG"%string) ->
  NoDup (names es).
Proof.
  intros Hes Hkeep Hextra. unfold get_environment_entries in Hes.
  destruct (get_environment_variable "SystemRoot") as [root|]; [|done].
  apply (inj Some) in Hes. subst es.
  unfold env_wstrings. rewrite Hkeep, app_nil_r.
  rewrite !names_app.
  change (names [("Path"%string, new_path root extra_env prepend_to_path);
                 ("VSLANG"%string, "1033"%string)])
    with ["Path"; "VSLANG"]%string.
  assert (Hx : forall n, In n (names (extra_entries (map_to_list extra_env))) ->
            ~ In n allow_list /\ n <> "Path"%string /\ n <> "VSLANG"%string).
  { intros n Hn. apply names_extra_entries_in in Hn as [Hn Hne].
    apply Hextra; [|done]. unfold names in Hn. apply in_map_iff in Hn
      as ([k v] & <- & Hin). apply in_map_to_list in Hin. by exists v. }
  assert (Hxs : NoDup (names (extra_entries (map_to_list extra_env)))).
  { apply names_extra_entries_NoDup. apply NoDup_fst_map_to_list. }
  generalize dependent (names (extra_entries (map_to_list extra_env))).
  intros xs Hx Hxs.
  pose proof (names_base_entries_NoDup get_environment_variable _
                allow_list_NoDup) as Hb.
  pose proof (names_base_entries_in get_environment_variable allow_list) as Hbin.
  generalize dependent (names (base_entries get_environment_variable allow_list)).
  intros bs Hb Hbin.
  apply NoDup_app. split; [done|]. split.
  - intros n Hn. apply list_elem_of_In, Hbin in Hn.
    rewrite list_elem_of_In. cbn [app In].
    intros [<-|[<-|Hin]].
    + by apply Path_not_listed in Hn.
    + by apply VSLANG_not_listed in Hn.
    + apply Hx in Hin as [Hin _]. done.
  - cbn [app]. apply NoDup_cons. split.
    { rewrite list_elem_of_In. cbn [In]. intros [H|Hin]; [done|].
      apply Hx in Hin as (_ & Hin & _). done. }
    apply NoDup_cons. split; [|done].
    rewrite list_elem_of_In. intros Hin.
    apply Hx in Hin as (_ & _ & Hin). done.
Qed.

Lemma block_names_unique_witness :
  NoDup (names [("SystemRoot", "C:\Windows"); ("TEMP", "C:\T");
                ("Path", "C:\Windows\system32;C:\Windows;C:\Windows\system32\Wbem;C:\Windows\system32\WindowsPowerShell\v1.0\");
                ("VSLANG", "1033"); ("FOO", "bar")]%string).
Proof.
  apply (block_names_unique
           (env_of [("SystemRoot", "C:\Windows"); ("TEMP", "C:\T")]%string)
           split_chars {[ "FOO"%string := "bar"%string ]} ""%string).
  - vm_compute. reflexivity.
  - reflexivity.
  - intros n [v Hv] _.
    apply lookup_singleton_Some in Hv as [<- _].
    split; [not_listed|]. split; discriminate.
Defined.

(** ** Host architecture *)

Import Arch.

Lemma ascii_ci_equals_sym a b :
  ascii_ci_equals a b = true -> ascii_ci_equals b a = true.
Proof.
  unfold ascii_ci_equals. rewrite !String.eqb_eq. by intros ->.
Qed.

Lemma ascii_ci_equals_trans a b c :
  ascii_ci_equals a b = true -> ascii_ci_equals b c = true ->
  ascii_ci_equals a c = true.
Proof.
  unfold ascii_ci_equals. rewrite !String.eqb_eq. by intros -> ->.
Qed.

(** X21. [to_cpu_architecture] sees its argument only through
    [Strings::case_insensitive_ascii_equals]: for a comparison that is
    symmetric and transitive, two names that compare equal are taken for
    the same architecture, or both rejected. *)
Theorem to_cpu_architecture_up_to_case
    (case_insensitive_ascii_equals : string -> string -> bool) (a b : string) :
  (forall x y, case_insensitive_ascii_equals x y = true ->
               case_insensitive_ascii_equals y x = true) ->
  (forall x y z, case_insensitive_ascii_equals x y = true ->
                 case_insensitive_ascii_equals y z = true ->
                 case_insensitive_ascii_equals x z = true) ->
  case_insensitive_ascii_equals a b = true ->
  to_cpu_architecture case_insensitive_ascii_equals a
  = to_cpu_architecture case_insensitive_ascii_equals b.
Proof.
  intros Hsym Htrans Hab.
  assert (H : forall x, case_insensitive_ascii_equals a x
                        = case_insensitive_ascii_equals b x).
  { intros x. destruct (case_insensitive_ascii_equals a x) eqn:Hax,
      (case_insensitive_ascii_equals b x) eqn:Hbx; try done.
    - rewrite (Htrans b a x) in Hbx; [done | by apply Hsym | done].
    - rewrite (Htrans a b x) in Hax; done. }
  unfold to_cpu_architecture. by rewrite !H.
Qed.

Lemma to_cpu_architecture_up_to_case_witness :
  to_cpu_architecture ascii_ci_equals "AMD64" = Some X64 /\
  to_cpu_architecture ascii_ci_equals "AMD64"
  = to_cpu_architecture ascii_ci_equals "amd64".
Proof.
  split; [reflexivity|].
  apply (to_cpu_architecture_up_to_case ascii_ci_equals "AMD64" "amd64"
           ascii_ci_equals_sym ascii_ci_equals_trans).
  reflexivity.
Defined.

(** X22. When [get_supported_host_architectures] returns, the list
    starts with the host processor, holds no architecture twice and at
    most two, and holds [X86] whenever it holds [X64]. *)
Theorem supported_host_architectures_shape
    (case_insensitive_ascii_equals : string -> string -> bool)
    (get_environment_variable : string -> option string)
    (l : list CPUArchitecture) :
  get_supported_host_architectures case_insensitive_ascii_equals
    get_environment_variable = Some l ->
  exists host,
    get_host_processor case_insensitive_ascii_equals get_environment_variable
    = Some host /\
    head l = Some host /\
    NoDup l /\
    (length l <= 2)%nat /\
    (In X64 l -> In X86 l).
Proof.
  unfold get_supported_host_architectures.
  destruct (get_host_processor _ _) as [host|]; [|done].
  intros H. exists host. split; [done|].
  destruct host; apply (inj Some) in H; subst l; cbn [app head length];
    (split; [reflexivity|]);
    (split;
       [repeat (apply NoDup_cons; split;
                  [rewrite list_elem_of_In; cbn [In]; intuition discriminate|]);
        apply NoDup_nil_2|]);
    (split; [lia|]); cbn [In]; intuition discriminate.
Qed.

Lemma supported_host_architectures_shape_witness :
  exists host,
    get_host_processor ascii_ci_equals
      (env_of [("PROCESSOR_ARCHITECTURE", "AMD64")]%string) = Some host /\
    head [X64; X86] = Some host /\
    NoDup [X64; X86] /\
    (length [X64; X86] <= 2)%nat /\
    (In X64 [X64; X86] -> In X86 [X64; X86]).
Proof.
  apply (supported_host_architectures_shape ascii_ci_equals
           (env_of [("PROCESSOR_ARCHITECTURE", "AMD64")]%string) [X64; X86]).
  reflexivity.
Defined.
